(** * txttoexel: colon-delimited text to chunked workbooks

    A shallow embedding of [txttoexel.py] and the proofs of its
    specification.

    Conventions of the embedding.
    - A Python [str] is a [string]; a character is a code point below 256
      (the Latin-1 block), which is where every literal of the script lives.
    - A Python [int] is a [Z]; [len] returns a [Z].
    - A Python [list] of strings is a [list string].
    - Subscription [l[i]] can raise [IndexError]; it is embedded in the
      [result] monad, so that "never raises" is a theorem and not a
      convention.
    - The generator [parse_rows] is the list of the tuples it yields, in
      order.
    - The file system is the log of the [write_chunk] calls, in order.
    - What the program prints is a list of messages; the progress line of
      [write_chunk] and the two messages that show a path are kept as
      their arguments, since their text has characters outside the
      alphabet or is rendered by [pathlib].
    - Reading the input and [write_chunk] can raise; the environment says
      when, and [process_txt_in] is [process_txt] under it. *)

From Stdlib Require Import List String Ascii Bool ZArith NArith Lia.
From Stdlib Require Import DecimalString DecimalZ FinFun.
Import ListNotations.

Local Open Scope string_scope.
Local Open Scope Z_scope.

(* ------------------------------------------------------------------ *)
(** ** The error monad of subscription *)

Inductive result (A : Type) : Type :=
| Ok (a : A)
| IndexError.

Arguments Ok {A} a.
Arguments IndexError {A}.

Definition bind {A B : Type} (m : result A) (k : A -> result B) : result B :=
  match m with
  | Ok a => k a
  | IndexError => IndexError
  end.

Notation "x <- m ;; k" := (bind m (fun x => k))
  (at level 61, m at next level, right associativity).

(** [len(l)]. *)
Definition len {A : Type} (l : list A) : Z := Z.of_nat (List.length l).

(** [l[i]]: a negative index counts from the end; out of range raises. *)
Definition getitem {A : Type} (l : list A) (i : Z) : result A :=
  let j := if i <? 0 then i + len l else i in
  if (j <? 0) || (len l <=? j) then IndexError
  else match nth_error l (Z.to_nat j) with
       | Some x => Ok x
       | None => IndexError
       end.

(** [l[i:]] for a non-negative literal [i]; slicing never raises. *)
Definition slice_from {A : Type} (l : list A) (i : Z) : list A :=
  skipn (Z.to_nat i) l.

(* ------------------------------------------------------------------ *)
(** ** The [str] methods and [re] calls the script uses *)

Module PyStr.

(** [c.isspace()] on code points below 256: TAB..CR, FS..US, SPACE,
    NEL (0x85) and NBSP (0xA0).  The class [\s] of [re] on a [str]
    pattern is the same set. *)
Definition isspace (c : ascii) : bool :=
  let n := N_of_ascii c in
  (((9 <=? n) && (n <=? 13)) || ((28 <=? n) && (n <=? 32))
   || (n =? 133) || (n =? 160))%N.

(** [c.lower()] on code points below 256: A..Z and the upper-case
    letters of Latin-1 (0xC0..0xDE but the multiplication sign 0xD7). *)
Definition lower_char (c : ascii) : ascii :=
  let n := N_of_ascii c in
  if (((65 <=? n) && (n <=? 90))
      || ((192 <=? n) && (n <=? 222) && negb (n =? 215)))%N
  then ascii_of_N (n + 32) else c.

(** [s.lower()]. *)
Fixpoint lower (s : string) : string :=
  match s with
  | EmptyString => EmptyString
  | String c r => String (lower_char c) (lower r)
  end.

(** Truth value of a string: [if s] holds for the non-empty ones. *)
Definition truthy (s : string) : bool :=
  match s with
  | EmptyString => false
  | String _ _ => true
  end.

(** [s.lstrip()]. *)
Fixpoint lstrip (s : string) : string :=
  match s with
  | EmptyString => EmptyString
  | String c r => if isspace c then lstrip r else s
  end.

(** [s.rstrip()], generic in the set of characters to remove. *)
Fixpoint rstrip_by (drop : ascii -> bool) (s : string) : string :=
  match s with
  | EmptyString => EmptyString
  | String c r =>
      match rstrip_by drop r with
      | EmptyString => if drop c then EmptyString else String c EmptyString
      | r' => String c r'
      end
  end.

Definition rstrip (s : string) : string := rstrip_by isspace s.

(** [s.rstrip(chars)] for a one-character [chars]. *)
Definition rstrip_char (ch : ascii) (s : string) : string :=
  rstrip_by (Ascii.eqb ch) s.

(** [s.strip()]. *)
Definition strip (s : string) : string := rstrip (lstrip s).

(** [ch in s] for a one-character [ch]. *)
Fixpoint contains (ch : ascii) (s : string) : bool :=
  match s with
  | EmptyString => false
  | String c r => Ascii.eqb c ch || contains ch r
  end.

(** [s.split(sep)] for a one-character [sep]: never empty, one more
    piece than there are separators. *)
Fixpoint split (sep : ascii) (s : string) : list string :=
  match s with
  | EmptyString => [EmptyString]
  | String c r =>
      if Ascii.eqb c sep then EmptyString :: split sep r
      else match split sep r with
           | piece :: pieces => String c piece :: pieces
           | [] => [String c EmptyString]
           end
  end.

(** [re.sub(r"\s+", repl, s, count=count)] for a one-character [repl]:
    the leftmost [count] maximal runs of whitespace each become one
    [repl].  [in_run] says that the previous character belonged to a
    run that was replaced. *)
Fixpoint sub_ws_go (repl : ascii) (count : nat) (in_run : bool)
         (s : string) : string :=
  match s with
  | EmptyString => EmptyString
  | String c r =>
      if isspace c then
        if in_run then sub_ws_go repl count true r
        else match count with
             | O => String c (sub_ws_go repl O false r)
             | S count' => String repl (sub_ws_go repl count' true r)
             end
      else String c (sub_ws_go repl count false r)
  end.

Definition sub_ws (repl : ascii) (count : nat) (s : string) : string :=
  sub_ws_go repl count false s.

(** A member of the character class [[0-9\-]]. *)
Definition digit_or_hyphen (c : ascii) : bool :=
  let n := N_of_ascii c in
  (((48 <=? n) && (n <=? 57)) || (n =? 45))%N.

Fixpoint all_chars (p : ascii -> bool) (s : string) : bool :=
  match s with
  | EmptyString => true
  | String c r => p c && all_chars p r
  end.

(** [re.fullmatch(r"[0-9\-]+", s)] as a truth value. *)
Definition fullmatch_digits_hyphens (s : string) : bool :=
  truthy s && all_chars digit_or_hyphen s.

End PyStr.

(* ------------------------------------------------------------------ *)
(** ** User settings *)

Definition COL_SEP : ascii := ":"%char.
Definition PHONE_COL : Z := 0.
Definition FIRST_COL : Z := 2.
Definition LAST_COL : Z := 3.
Definition CITY_COL : Z := 5.
Definition CHUNK_LIMIT : Z := 1000000.
Definition OUTPUT_BASENAME : string := "output".

Definition HEADER : list string := ["Phone"; "FirstName"; "LastName"; "City"].

(** [max(PHONE_COL, FIRST_COL, LAST_COL, CITY_COL)]. *)
Definition max_col : Z :=
  Z.max (Z.max (Z.max PHONE_COL FIRST_COL) LAST_COL) CITY_COL.

(* ------------------------------------------------------------------ *)
(** ** The row normalizer, [parse_rows] *)

(** What the generator yields: [(phone, first, last, city)]. *)
Definition row : Type := string * string * string * string.

Definition LF : ascii := "010"%char.
Definition SLASH : ascii := "/"%char.
Definition COMMA : ascii := ","%char.

(** The set literal [skip_tokens]. *)
Definition skip_tokens : list string :=
  [ "male"; "female"; "single"; "married"; "widowed";
    "divorced"; "engaged"; "in a relationship"; "it's complicated" ].

(** [x in skip_tokens]. *)
Definition in_skip_tokens (x : string) : bool :=
  existsb (String.eqb x) skip_tokens.

(** The two splits of a line: the naive one, and the one after the repair
    of the first two whitespace runs. *)
Definition naive_parts (line : string) : list string :=
  PyStr.split COL_SEP line.

Definition fixed_line (line : string) : string :=
  PyStr.sub_ws COL_SEP 2 line.

(** The first [if]: the value of [parts] when the second [if] tests it. *)
Definition repaired_parts (line : string) : list string :=
  let parts := naive_parts line in
  if len parts <=? max_col
  then PyStr.split COL_SEP (fixed_line line)
  else parts.

(** One turn of the loop over [parts[5:]]: the [continue] that fires, or
    the value that the [break] keeps. *)
Inductive verdict : Type :=
| SkipBlank
| SkipKnownToken
| SkipDateLike
| SkipNumericLike
| Keep (value : string).

Definition examine (token : string) : verdict :=
  let value := PyStr.strip token in
  if negb (PyStr.truthy value) then SkipBlank
  else
    let ilower := PyStr.lower value in
    if in_skip_tokens ilower then SkipKnownToken
    else if PyStr.contains SLASH value then SkipDateLike
    else if PyStr.fullmatch_digits_hyphens value then SkipNumericLike
    else Keep value.

(** The loop [for token in parts[5:]]: the final value of [location_raw],
    which starts as the empty string. *)
Fixpoint scan_location (tokens : list string) : string :=
  match tokens with
  | [] => EmptyString
  | token :: rest =>
      match examine token with
      | Keep value => value
      | _ => scan_location rest
      end
  end.

(** [location_raw] once the loop over [parts[5:]] is over. *)
Definition location_raw_of (parts : list string) : string :=
  scan_location (slice_from parts 5).

(** The list comprehension
    [[seg.strip() for seg in location_raw.split(",") if seg.strip()]]. *)
Definition comma_segments (location_raw : string) : list string :=
  map PyStr.strip
      (filter (fun seg => PyStr.truthy (PyStr.strip seg))
              (PyStr.split COMMA location_raw)).

(** The f-string [f"{country_segment}: {city_segment}"]. *)
Definition country_city (country_segment city_segment : string) : string :=
  country_segment ++ ": " ++ city_segment.

(** The block that computes [city_field] from [location_raw]. *)
Definition city_field_of (location_raw : string) : result string :=
  if PyStr.truthy location_raw then
    if PyStr.contains COMMA location_raw then
      let segments := comma_segments location_raw in
      match segments with
      | [] => Ok EmptyString
      | _ :: _ =>
          city_segment <- getitem segments 0 ;;
          country_segment <- getitem segments (-1) ;;
          Ok (country_city country_segment city_segment)
      end
    else Ok location_raw
  else Ok EmptyString.

(** The body of the loop [for raw_line in fp]: [Ok None] when nothing is
    yielded, [Ok (Some r)] when [r] is, [IndexError] when a subscription
    raises. *)
Definition parse_line (raw_line : string) : result (option row) :=
  let line := PyStr.rstrip_char LF raw_line in
  let parts := repaired_parts line in
  if len parts >? max_col then
    let location_raw := location_raw_of parts in
    city_field <- city_field_of location_raw ;;
    phone <- getitem parts PHONE_COL ;;
    first <- getitem parts FIRST_COL ;;
    last <- getitem parts LAST_COL ;;
    Ok (Some (PyStr.strip phone, PyStr.strip first, PyStr.strip last,
              city_field))
  else Ok None.

(** [parse_rows(fp)], with [fp] the lines of the file: the tuples the
    generator yields, in order.  A subscription that raises ends it with
    the error. *)
Fixpoint parse_rows (fp : list string) : result (list row) :=
  match fp with
  | [] => Ok []
  | raw_line :: rest =>
      yielded <- parse_line raw_line ;;
      later <- parse_rows rest ;;
      Ok (match yielded with
          | Some r => r :: later
          | None => later
          end)
  end.

(* ------------------------------------------------------------------ *)
(** ** The chunked writer, [write_chunk] *)

(** One output workbook: its file name, the part number it was written
    under, the header row and the data rows. *)
Record workbook : Type := {
  wb_name : string;
  wb_part : Z;
  wb_header : list string;
  wb_rows : list row
}.

(** [str(n)] for an integer. *)
Definition str_of_int (n : Z) : string :=
  NilZero.string_of_int (Z.to_int n).

(** [f"{OUTPUT_BASENAME}_{part_no}.xlsx"]. *)
Definition out_name (part_no : Z) : string :=
  OUTPUT_BASENAME ++ "_" ++ str_of_int part_no ++ ".xlsx".

(** [write_chunk(rows, part_no)] when neither [to_excel] nor [print]
    raises: it adds one workbook to the files written so far.  The line
    it prints and the ways it can raise are in [write_chunk_in]. *)
Definition write_chunk (rows : list row) (part_no : Z)
           (disk : list workbook) : list workbook :=
  disk ++ [ {| wb_name := out_name part_no;
               wb_part := part_no;
               wb_header := HEADER;
               wb_rows := rows |} ].

(* ------------------------------------------------------------------ *)
(** ** The driver, [process_txt] *)

(** The variables of [process_txt] and the files written so far. *)
Record driver : Type := {
  part_no : Z;
  buffer : list row;
  disk : list workbook
}.

Definition start : driver :=
  {| part_no := 1; buffer := []; disk := [] |}.

(** Where the driver stands: about to pull the next row ([Reading]),
    between [buffer.append(row)] and a [write_chunk] that the length test
    has just decided ([Flushing]), or after the remainder test ([Done]). *)
Inductive phase : Type := Reading | Flushing | Done.

Record config : Type := {
  pc : phase;
  pending : list row;      (* what the generator has yet to yield *)
  vars : driver
}.

Section Driver.

(** The row limit; [process_txt] runs with [CHUNK_LIMIT]. *)
Variable limit : Z.

(** [buffer.append(row)]. *)
Definition append_row (st : driver) (r : row) : driver :=
  {| part_no := part_no st; buffer := buffer st ++ [r]; disk := disk st |}.

(** [write_chunk(buffer, part_no); part_no += 1; buffer.clear()]. *)
Definition flush (st : driver) : driver :=
  {| part_no := part_no st + 1;
     buffer := [];
     disk := write_chunk (buffer st) (part_no st) (disk st) |}.

(** [if buffer: write_chunk(buffer, part_no)]. *)
Definition write_remainder (st : driver) : driver :=
  match buffer st with
  | [] => st
  | _ :: _ =>
      {| part_no := part_no st;
         buffer := buffer st;
         disk := write_chunk (buffer st) (part_no st) (disk st) |}
  end.

(** The body of [for row in parse_rows(fp)]. *)
Definition loop_body (st : driver) (r : row) : driver :=
  let st' := append_row st r in
  if len (buffer st') =? limit then flush st' else st'.

(** The loop and the remainder test, on the rows the generator yields. *)
Definition drive (rows : list row) : driver :=
  write_remainder (fold_left loop_body rows start).

(** The same program, one transition at a time. *)
Definition step (c : config) : option config :=
  match pc c with
  | Reading =>
      match pending c with
      | r :: rest =>
          let st' := append_row (vars c) r in
          Some {| pc := if len (buffer st') =? limit
                        then Flushing else Reading;
                  pending := rest;
                  vars := st' |}
      | [] =>
          Some {| pc := Done; pending := [];
                  vars := write_remainder (vars c) |}
      end
  | Flushing =>
      Some {| pc := Reading; pending := pending c;
              vars := flush (vars c) |}
  | Done => None
  end.

Definition initial (rows : list row) : config :=
  {| pc := Reading; pending := rows; vars := start |}.

(** The configurations the driver goes through on [rows]. *)
Inductive reachable (rows : list row) : config -> Prop :=
| reach_initial : reachable rows (initial rows)
| reach_step : forall c c',
    reachable rows c -> step c = Some c' -> reachable rows c'.

End Driver.

(** [process_txt(txt_path)] on the lines of the file at [txt_path], when
    reading and writing do not raise; [process_txt_in] is the function
    under an environment where they can. *)
Definition process_txt (lines : list string) : result driver :=
  rows <- parse_rows lines ;;
  Ok (drive CHUNK_LIMIT rows).

(* ------------------------------------------------------------------ *)
(** ** The entry point *)

(** A path is either the command-line argument or an entry that
    [Path.cwd().glob("*.txt")] returned, known by its name. *)
Inductive path : Type :=
| ArgPath (arg : string)
| CwdEntry (name : string).

(** How a call of [write_chunk] ends: [to_excel] raises and no workbook
    is written, the workbook is written and [print] raises, or both
    return. *)
Inductive chunk_outcome : Type :=
| ChunkOk
| WriteRaises
| PrintRaises.

(** What the entry point reads from its environment. *)
Record env : Type := {
  argv : list string;                 (* [sys.argv] *)
  cwd_txt : list string;              (* names matching [*.txt] in the cwd *)
  is_file : path -> bool;             (* [Path.is_file] *)
  read_lines : path -> list string;   (* the lines the file delivers *)
  read_raises : path -> bool;         (* opening or reading it then raises *)
  chunk_io : string -> chunk_outcome  (* how [write_chunk] ends, by file name *)
}.

(** The exceptions a run can end with. *)
Inductive exception : Type :=
| SubscriptError
| ReadError
| WriteError (name : string)
| PrintError (name : string).

(** What the program shows: a line of plain text; the progress line of
    [write_chunk], a check mark, [wrote {len(rows):,} rows], an arrow and
    [out_name], kept as the count and the name; the message
    [File not found: {input_path}] of [sys.exit], kept as the path; or the
    traceback of an uncaught exception. *)
Inductive message : Type :=
| Text (line : string)
| Wrote (count : Z) (name : string)
| FileNotFound (input_path : path)
| Traceback (why : exception).

(** The progress line of the call that wrote [w]. *)
Definition progress_of (w : workbook) : message :=
  Wrote (len (wb_rows w)) (wb_name w).

(** How a computation that can raise ends: it returns, or it raises with
    the workbooks announced on the output and the workbooks on disk at
    that point. *)
Inductive ended (A : Type) : Type :=
| Returned (a : A)
| Raised (why : exception) (announced on_disk : list workbook).

Arguments Returned {A} a.
Arguments Raised {A} why announced on_disk.

(** [write_chunk(rows, part_no)] under the environment. *)
Definition write_chunk_in (e : env) (rows : list row) (part_no : Z)
           (d : list workbook) : ended (list workbook) :=
  match chunk_io e (out_name part_no) with
  | ChunkOk => Returned (write_chunk rows part_no d)
  | WriteRaises => Raised (WriteError (out_name part_no)) d d
  | PrintRaises =>
      Raised (PrintError (out_name part_no)) d (write_chunk rows part_no d)
  end.

(** The body of [for row in parse_rows(fp)] under the environment. *)
Definition loop_body_in (e : env) (st : driver) (r : row) : ended driver :=
  let st' := append_row st r in
  if len (buffer st') =? CHUNK_LIMIT then
    match write_chunk_in e (buffer st') (part_no st') (disk st') with
    | Returned d =>
        Returned {| part_no := part_no st' + 1; buffer := []; disk := d |}
    | Raised why announced on_disk => Raised why announced on_disk
    end
  else Returned st'.

(** The loop: an exception ends it. *)
Fixpoint loop_in (e : env) (rows : list row) (st : driver) : ended driver :=
  match rows with
  | [] => Returned st
  | r :: rest =>
      match loop_body_in e st r with
      | Returned st' => loop_in e rest st'
      | Raised why announced on_disk => Raised why announced on_disk
      end
  end.

(** [if buffer: write_chunk(buffer, part_no)] under the environment. *)
Definition write_remainder_in (e : env) (st : driver) : ended driver :=
  match buffer st with
  | [] => Returned st
  | _ :: _ =>
      match write_chunk_in e (buffer st) (part_no st) (disk st) with
      | Returned d =>
          Returned {| part_no := part_no st; buffer := buffer st; disk := d |}
      | Raised why announced on_disk => Raised why announced on_disk
      end
  end.

(** [process_txt(txt_path)] under the environment: the rows of the lines
    the file delivers go through the loop; if reading then raises, the
    exception leaves the loop and the remainder is not written. *)
Definition process_txt_in (e : env) (txt_path : path) : ended driver :=
  match parse_rows (read_lines e txt_path) with
  | IndexError => Raised SubscriptError [] []
  | Ok rows =>
      match loop_in e rows start with
      | Returned st =>
          if read_raises e txt_path then Raised ReadError (disk st) (disk st)
          else write_remainder_in e st
      | Raised why announced on_disk => Raised why announced on_disk
      end
  end.

(** What a run leaves behind. *)
Record outcome : Type := {
  stdout : list message;
  stderr : list message;
  exit_status : Z;
  written : list workbook
}.

Definition usage : list string :=
  [ "Usage: python txttoexel.py path/to/input.txt";
    "Or place exactly one .txt file in the current folder and run without arguments." ].

Definition chosen_message (name : string) : string :=
  "No path arg given -> using '" ++ name ++ "' in current directory.".

(** An uncaught exception ends the process with status 1. *)
Definition uncaught (out : list message) (why : exception)
           (announced on_disk : list workbook) : outcome :=
  {| stdout := out ++ map progress_of announced;
     stderr := [Traceback why];
     exit_status := 1;
     written := on_disk |}.

(** From [if not input_path.is_file()] to the end of the script. *)
Definition run_on (e : env) (out : list message) (input_path : path)
  : outcome :=
  if negb (is_file e input_path) then
    {| stdout := out;
       stderr := [FileNotFound input_path];
       exit_status := 1;
       written := [] |}
  else
    match process_txt_in e input_path with
    | Returned st =>
        {| stdout := out ++ map progress_of (disk st);
           stderr := [];
           exit_status := 0;
           written := disk st |}
    | Raised why announced on_disk => uncaught out why announced on_disk
    end.

(** The block under [if __name__ == "__main__"]. *)
Definition main (e : env) : outcome :=
  if len (argv e) =? 2 then
    match getitem (argv e) 1 with
    | Ok arg => run_on e [] (ArgPath arg)
    | IndexError => uncaught [] SubscriptError [] []
    end
  else
    let txt_files := cwd_txt e in
    if len txt_files =? 1 then
      match getitem txt_files 0 with
      | Ok name => run_on e [Text (chosen_message name)] (CwdEntry name)
      | IndexError => uncaught [] SubscriptError [] []
      end
    else
      {| stdout := map Text usage; stderr := []; exit_status := 1;
         written := [] |}.

(* ------------------------------------------------------------------ *)
(** ** Vocabulary of the specification *)

(** The line as the normalizer sees it, and its field vector after the
    repair attempt. *)
Definition stripped_line (raw_line : string) : string :=
  PyStr.rstrip_char LF raw_line.

Definition field_vector (raw_line : string) : list string :=
  repaired_parts (stripped_line raw_line).

(** Too few fields to cover the maximum required column index. *)
Definition too_few (parts : list string) : bool :=
  len parts <=? max_col.

(** A line that is skipped: too few fields even after the repair. *)
Definition unparsable (raw_line : string) : bool :=
  too_few (field_vector raw_line).

(** The four exclusions, each on the trimmed field. *)
Definition blank (field : string) : Prop :=
  PyStr.strip field = EmptyString.

Definition known_token (field : string) : Prop :=
  In (PyStr.lower (PyStr.strip field)) skip_tokens.

Definition date_like (field : string) : Prop :=
  PyStr.contains SLASH (PyStr.strip field) = true.

Definition numeric_like (field : string) : Prop :=
  PyStr.strip field <> EmptyString /\
  PyStr.all_chars PyStr.digit_or_hyphen (PyStr.strip field) = true.

(** A field that passes the four exclusions. *)
Definition passes (field : string) : Prop :=
  ~ blank field /\ ~ known_token field /\ ~ date_like field /\
  ~ numeric_like field.

(** A field that passes the four exclusions, as a test. *)
Definition qualifies (field : string) : bool :=
  let v := PyStr.strip field in
  PyStr.truthy v
  && negb (in_skip_tokens (PyStr.lower v))
  && negb (PyStr.contains SLASH v)
  && negb (PyStr.truthy v && PyStr.all_chars PyStr.digit_or_hyphen v).

(** The value of [city_field] for a given [location_raw], read off the
    specification: "Country: City" from the last and the first segment
    when there is a comma, the candidate itself otherwise. *)
Definition normalized_city (location_raw : string) : string :=
  if PyStr.contains COMMA location_raw then
    match comma_segments location_raw with
    | [] => EmptyString
    | s :: rest => last (s :: rest) s ++ ": " ++ s
    end
  else location_raw.

(** Equality up to letter case. *)
Definition same_ignoring_case (a b : string) : Prop :=
  PyStr.lower a = PyStr.lower b.

(** The record of a line with enough fields: the trimmed phone, first
    name and last name fields, then the normalized city. *)
Definition record_of (raw_line : string) : row :=
  (PyStr.strip (nth 0 (field_vector raw_line) EmptyString),
   PyStr.strip (nth 2 (field_vector raw_line) EmptyString),
   PyStr.strip (nth 3 (field_vector raw_line) EmptyString),
   normalized_city (location_raw_of (field_vector raw_line))).

(** What a line yields, as a list of zero or one record. *)
Definition yield_of (raw_line : string) : list row :=
  match parse_line raw_line with
  | Ok (Some r) => [r]
  | _ => []
  end.

(** [ceil(q / l)] for a positive [l]. *)
Definition ceil_div (q l : Z) : Z := (q + l - 1) / l.

(** The part numbers [1 .. n]. *)
Definition parts_upto (n : nat) : list Z := map Z.of_nat (seq 1 n).

(** The size of a workbook, with its part number. *)
Definition part_and_size (w : workbook) : Z * Z :=
  (wb_part w, len (wb_rows w)).

(** The data rows of the workbooks, in the order they were written. *)
Definition rows_written (d : list workbook) : list row :=
  List.concat (map wb_rows d).

(** Every workbook holds exactly [limit] rows. *)
Definition all_full (limit : Z) (d : list workbook) : Prop :=
  Forall (fun w => len (wb_rows w) = limit) d.

(** Every workbook but the last holds exactly [limit] rows, and none is
    empty or larger. *)
Definition only_last_smaller (limit : Z) (d : list workbook) : Prop :=
  all_full limit (removelast d)
  /\ Forall (fun w => 0 < len (wb_rows w) <= limit) d.

(** The workbooks carry the part numbers 1, 2, 3, ... in that order. *)
Definition numbered_from_one (d : list workbook) : Prop :=
  map wb_part d = parts_upto (List.length d).

(** What holds each time the driver is about to pull the next row, [seen]
    being the rows pulled so far. *)
Definition loop_inv (limit : Z) (seen : list row) (st : driver) : Prop :=
  (rows_written (disk st) ++ buffer st)%list = seen
  /\ all_full limit (disk st)
  /\ numbered_from_one (disk st)
  /\ part_no st = 1 + len (disk st)
  /\ len (buffer st) < limit.

(** What holds in every configuration of the driver on [rows]. *)
Definition config_inv (limit : Z) (rows : list row) (c : config) : Prop :=
  match pc c with
  | Reading =>
      exists seen : list row,
        (seen ++ pending c)%list = rows /\ loop_inv limit seen (vars c)
  | Flushing =>
      exists seen : list row,
        (seen ++ pending c)%list = rows
        /\ (rows_written (disk (vars c)) ++ buffer (vars c))%list = seen
        /\ all_full limit (disk (vars c))
        /\ numbered_from_one (disk (vars c))
        /\ part_no (vars c) = 1 + len (disk (vars c))
        /\ len (buffer (vars c)) = limit
  | Done =>
      pending c = []
      /\ rows_written (disk (vars c)) = rows
      /\ only_last_smaller limit (disk (vars c))
      /\ numbered_from_one (disk (vars c))
      /\ len (buffer (vars c)) < limit
      /\ (forall r : row, In r (buffer (vars c)) -> In r rows)
  end.

(** How many times a character occurs in a string. *)
Fixpoint count_char (ch : ascii) (s : string) : nat :=
  match s with
  | EmptyString => O
  | String c r => ((if Ascii.eqb c ch then 1 else 0) + count_char ch r)%nat
  end.

(** The carriage return. *)
Definition CR : ascii := "013"%char.

(** A line of the file: the text and its terminator. *)
Definition text_line (s : string) : string := s ++ String LF EmptyString.

(** A workbook named after its part number, with the fixed header row. *)
Definition well_named (w : workbook) : Prop :=
  wb_name w = out_name (wb_part w) /\ wb_header w = HEADER.

(** A string with no whitespace at either end. *)
Definition trimmed (s : string) : Prop := PyStr.strip s = s.

(** A string that does not start with whitespace. *)
Definition no_leading_space (s : string) : Prop :=
  match s with
  | EmptyString => True
  | String c _ => PyStr.isspace c = false
  end.

(** A character that is no whitespace. *)
Definition nonspace (c : ascii) : bool := negb (PyStr.isspace c).

(** A comma or a whitespace character. *)
Definition comma_or_space (c : ascii) : bool :=
  Ascii.eqb c COMMA || PyStr.isspace c.

(** The number of maximal runs of whitespace in a string; [in_run] says
    that the previous character was whitespace. *)
Fixpoint ws_runs_go (in_run : bool) (s : string) : nat :=
  match s with
  | EmptyString => O
  | String c r =>
      if PyStr.isspace c
      then ((if in_run then 0 else 1) + ws_runs_go true r)%nat
      else ws_runs_go false r
  end.

Definition ws_runs (s : string) : nat := ws_runs_go false s.

(** Case analysis on the outcome of the four tests on a field. *)
Ltac case_tests field :=
  destruct (PyStr.truthy (PyStr.strip field)),
           (in_skip_tokens (PyStr.lower (PyStr.strip field))),
           (PyStr.contains SLASH (PyStr.strip field)),
           (PyStr.fullmatch_digits_hyphens (PyStr.strip field));
  simpl; intuition (try discriminate; try congruence).

(* ------------------------------------------------------------------ *)
(** ** Lists and subscription *)

Lemma len_nonneg {A : Type} (l : list A) : 0 <= len l.
Proof. unfold len. lia. Qed.

Lemma len_app {A : Type} (l1 l2 : list A) : len (l1 ++ l2) = len l1 + len l2.
Proof. unfold len. rewrite length_app. lia. Qed.

Lemma len_cons {A : Type} (x : A) (l : list A) : len (x :: l) = 1 + len l.
Proof. unfold len. simpl List.length. lia. Qed.

Lemma len_nil {A : Type} : len (@nil A) = 0.
Proof. reflexivity. Qed.

Lemma getitem_in_range {A : Type} (l : list A) (i : Z) (d : A) :
  0 <= i < len l -> getitem l i = Ok (nth (Z.to_nat i) l d).
Proof.
  intros Hi. unfold getitem. cbv zeta.
  assert (Hneg : (i <? 0) = false) by (apply Z.ltb_ge; lia).
  assert (Hle : (len l <=? i) = false) by (apply Z.leb_gt; lia).
  rewrite Hneg, Hneg, Hle. simpl.
  destruct (nth_error l (Z.to_nat i)) as [x|] eqn:Hnth.
  - f_equal. symmetry. apply nth_error_nth. exact Hnth.
  - apply nth_error_None in Hnth. unfold len in Hi. lia.
Qed.

Lemma getitem_minus_one {A : Type} (l : list A) (d : A) :
  l <> [] -> getitem l (-1) = Ok (last l d).
Proof.
  intros Hne.
  destruct (exists_last Hne) as [l' [a Heq]]. subst l.
  rewrite last_last.
  unfold getitem. cbv zeta. change (-1 <? 0) with true. cbv iota.
  rewrite len_app. change (len [a]) with 1.
  pose proof (len_nonneg l') as Hl'.
  assert (Hneg : (-1 + (len l' + 1) <? 0) = false) by (apply Z.ltb_ge; lia).
  assert (Hle : (len l' + 1 <=? -1 + (len l' + 1)) = false)
    by (apply Z.leb_gt; lia).
  rewrite Hneg, Hle. cbv [orb].
  replace (Z.to_nat (-1 + (len l' + 1))) with (List.length l' + 0)%nat
    by (unfold len; lia).
  rewrite nth_error_app2 by lia.
  replace (List.length l' + 0 - List.length l')%nat with 0%nat by lia.
  reflexivity.
Qed.

Lemma split_not_nil (sep : ascii) (s : string) : PyStr.split sep s <> [].
Proof.
  destruct s as [|c r]; simpl; [discriminate|].
  destruct (Ascii.eqb c sep); [discriminate|].
  destruct (PyStr.split sep r); discriminate.
Qed.

(* ------------------------------------------------------------------ *)
(** ** The normalizer never raises *)

Lemma truthy_false_iff (s : string) :
  PyStr.truthy s = false <-> s = EmptyString.
Proof. destruct s; simpl; split; congruence. Qed.

Lemma truthy_true_iff (s : string) :
  PyStr.truthy s = true <-> s <> EmptyString.
Proof. destruct s; simpl; split; congruence. Qed.

Lemma in_skip_tokens_iff (x : string) :
  in_skip_tokens x = true <-> In x skip_tokens.
Proof.
  unfold in_skip_tokens. rewrite existsb_exists. split.
  - intros [y [Hin Heq]]. apply String.eqb_eq in Heq. subst. exact Hin.
  - intros Hin. exists x. split; [exact Hin | apply String.eqb_refl].
Qed.

Lemma city_field_of_value (location_raw : string) :
  city_field_of location_raw = Ok (normalized_city location_raw).
Proof.
  unfold city_field_of, normalized_city.
  destruct location_raw as [|c r] eqn:Hloc; [reflexivity|].
  rewrite <- Hloc. replace (PyStr.truthy location_raw) with true
    by (subst; reflexivity).
  destruct (PyStr.contains COMMA location_raw); [|reflexivity].
  destruct (comma_segments location_raw) as [|s rest]; [reflexivity|].
  rewrite (getitem_in_range (s :: rest) 0 s)
    by (rewrite len_cons; pose proof (len_nonneg rest); lia).
  rewrite (getitem_minus_one (s :: rest) s) by discriminate.
  reflexivity.
Qed.

Lemma max_col_value : max_col = 5.
Proof. reflexivity. Qed.

Lemma gtb_too_few (parts : list string) :
  (len parts >? max_col) = negb (too_few parts).
Proof.
  unfold too_few. rewrite Z.gtb_ltb, Z.ltb_antisym. reflexivity.
Qed.

(** The record a sufficient field vector yields. *)
Lemma parse_line_value (raw_line : string) :
  parse_line raw_line =
  Ok (if too_few (field_vector raw_line) then None
      else Some (PyStr.strip (nth 0 (field_vector raw_line) EmptyString),
                 PyStr.strip (nth 2 (field_vector raw_line) EmptyString),
                 PyStr.strip (nth 3 (field_vector raw_line) EmptyString),
                 normalized_city (location_raw_of (field_vector raw_line)))).
Proof.
  unfold parse_line. cbv zeta.
  fold (stripped_line raw_line). fold (field_vector raw_line).
  rewrite gtb_too_few.
  destruct (too_few (field_vector raw_line)) eqn:Hfew; [reflexivity|].
  cbv [negb].
  unfold too_few in Hfew. apply Z.leb_gt in Hfew. rewrite max_col_value in Hfew.
  rewrite city_field_of_value. cbv [bind].
  rewrite (getitem_in_range _ PHONE_COL EmptyString) by (unfold PHONE_COL; lia).
  rewrite (getitem_in_range _ FIRST_COL EmptyString) by (unfold FIRST_COL; lia).
  rewrite (getitem_in_range _ LAST_COL EmptyString) by (unfold LAST_COL; lia).
  reflexivity.
Qed.

Lemma parse_rows_value (fp : list string) :
  parse_rows fp = Ok (flat_map yield_of fp).
Proof.
  induction fp as [|raw_line rest IH]; [reflexivity|].
  change (flat_map yield_of (raw_line :: rest))
    with (yield_of raw_line ++ flat_map yield_of rest)%list.
  change (parse_rows (raw_line :: rest))
    with (yielded <- parse_line raw_line ;;
          later <- parse_rows rest ;;
          Ok (match yielded with Some r => r :: later | None => later end)).
  rewrite IH. unfold yield_of.
  rewrite parse_line_value. cbv [bind].
  destruct (too_few (field_vector raw_line)); reflexivity.
Qed.

Lemma yield_of_value (raw_line : string) :
  yield_of raw_line =
  if unparsable raw_line then []
  else [(PyStr.strip (nth 0 (field_vector raw_line) EmptyString),
         PyStr.strip (nth 2 (field_vector raw_line) EmptyString),
         PyStr.strip (nth 3 (field_vector raw_line) EmptyString),
         normalized_city (location_raw_of (field_vector raw_line)))].
Proof.
  unfold yield_of, unparsable. rewrite parse_line_value.
  destruct (too_few (field_vector raw_line)); reflexivity.
Qed.

Lemma yielded_count (fp : list string) :
  len (flat_map yield_of fp) = len fp - len (filter unparsable fp).
Proof.
  induction fp as [|raw_line rest IH]; [reflexivity|].
  change (flat_map yield_of (raw_line :: rest))
    with (yield_of raw_line ++ flat_map yield_of rest)%list.
  rewrite len_app, IH, len_cons, yield_of_value. simpl filter.
  destruct (unparsable raw_line).
  - rewrite len_cons, len_nil. lia.
  - rewrite len_cons, len_nil. lia.
Qed.

(** C10. The normalizer is total on every string: [parse_line] returns
    without raising, and it yields either nothing (too few fields after
    the repair attempt) or exactly one 4-tuple; the three subscriptions
    [parts[PHONE_COL]], [parts[FIRST_COL]] and [parts[LAST_COL]] are in
    bounds whenever they are evaluated.  Over a whole file [parse_rows]
    returns the yielded tuples, at most one per line.  Determinism holds by
    construction: [parse_line] is a function of the line alone. *)
Theorem normalizer_total_and_in_bounds :
  (forall raw_line : string,
      let parts := field_vector raw_line in
      (too_few parts = true /\ parse_line raw_line = Ok None)
      \/ (too_few parts = false /\
          exists phone first last city : string,
            getitem parts PHONE_COL = Ok phone /\
            getitem parts FIRST_COL = Ok first /\
            getitem parts LAST_COL = Ok last /\
            parse_line raw_line =
            Ok (Some (PyStr.strip phone, PyStr.strip first,
                      PyStr.strip last, city))))
  /\ (forall fp : list string,
         exists rows : list row,
           parse_rows fp = Ok rows /\ len rows <= len fp).
Proof.
  split.
  - intros raw_line parts. subst parts.
    pose proof (parse_line_value raw_line) as Hv.
    destruct (too_few (field_vector raw_line)) eqn:Hfew.
    + left. split; [reflexivity | exact Hv].
    + right. split; [reflexivity|].
      unfold too_few in Hfew. apply Z.leb_gt in Hfew.
      rewrite max_col_value in Hfew.
      exists (nth 0 (field_vector raw_line) EmptyString),
             (nth 2 (field_vector raw_line) EmptyString),
             (nth 3 (field_vector raw_line) EmptyString),
             (normalized_city (location_raw_of (field_vector raw_line))).
      repeat split.
      * apply (getitem_in_range _ PHONE_COL). unfold PHONE_COL. lia.
      * apply (getitem_in_range _ FIRST_COL). unfold FIRST_COL. lia.
      * apply (getitem_in_range _ LAST_COL). unfold LAST_COL. lia.
      * exact Hv.
  - intros fp. exists (flat_map yield_of fp). split.
    + apply parse_rows_value.
    + rewrite yielded_count. pose proof (len_nonneg (filter unparsable fp)). lia.
Qed.

Lemma split_count (sep : ascii) (s : string) :
  List.length (PyStr.split sep s) = S (count_char sep s).
Proof.
  induction s as [|c r IH]; [reflexivity|].
  simpl. destruct (Ascii.eqb c sep).
  - simpl. rewrite IH. reflexivity.
  - destruct (PyStr.split sep r) as [|piece pieces] eqn:Hsplit.
    + exfalso. apply (split_not_nil sep r). exact Hsplit.
    + simpl in *. exact IH.
Qed.

(** The repair adds at most [count] delimiters. *)
Lemma sub_ws_go_count_le (sep : ascii) (s : string) :
  forall (count : nat) (in_run : bool),
    (count_char sep (PyStr.sub_ws_go sep count in_run s)
     <= count_char sep s + count)%nat.
Proof.
  induction s as [|c r IH]; intros count in_run; simpl; [lia|].
  destruct (PyStr.isspace c).
  - destruct in_run.
    + specialize (IH count true). lia.
    + destruct count as [|count'].
      * simpl. specialize (IH 0%nat false). lia.
      * simpl. rewrite Ascii.eqb_refl. specialize (IH count' true).
        destruct (Ascii.eqb c sep); lia.
  - simpl. specialize (IH count false). lia.
Qed.

(** The repair removes no delimiter, the delimiter being no space. *)
Lemma sub_ws_go_count_ge (sep : ascii) (s : string) :
  PyStr.isspace sep = false ->
  forall (count : nat) (in_run : bool),
    (count_char sep s
     <= count_char sep (PyStr.sub_ws_go sep count in_run s))%nat.
Proof.
  intros Hsep.
  induction s as [|c r IH]; intros count in_run; simpl; [lia|].
  destruct (PyStr.isspace c) eqn:Hc.
  - assert (Hne : Ascii.eqb c sep = false).
    { destruct (Ascii.eqb c sep) eqn:Heq; [|reflexivity].
      apply Ascii.eqb_eq in Heq. subst c. congruence. }
    rewrite Hne. destruct in_run.
    + specialize (IH count true). lia.
    + destruct count as [|count'].
      * simpl. rewrite Hne. specialize (IH 0%nat false). lia.
      * simpl. specialize (IH count' true). lia.
  - simpl. specialize (IH count false). lia.
Qed.

(** C3. The repair (the first two whitespace runs turned into the
    delimiter, then a second split) is what [parts] holds exactly when the
    naive split has too few fields; otherwise [parts] is the naive split,
    untouched, whatever whitespace the line has.  The repair adds at most
    two fields and removes none.  It is not tried again: a line whose one
    repair still leaves too few fields keeps that split and is skipped. *)
Theorem repair_iff_naive_split_too_few :
  (forall line : string,
      (too_few (naive_parts line) = true /\
       repaired_parts line = PyStr.split COL_SEP (PyStr.sub_ws COL_SEP 2 line))
      \/ (too_few (naive_parts line) = false /\
          repaired_parts line = naive_parts line))
  /\ (forall line : string,
         len (naive_parts line)
         <= len (PyStr.split COL_SEP (PyStr.sub_ws COL_SEP 2 line))
         <= len (naive_parts line) + 2)
  /\ (let line := "555 1234 : 77:Ann  Mae:Lee:female:Springfield,  USA" in
      PyStr.sub_ws COL_SEP 2 line <> line /\
      repaired_parts line =
      ["555 1234 "; " 77"; "Ann  Mae"; "Lee"; "female"; "Springfield,  USA"])
  /\ (let line := "1 2 3 4 5 6" in
      repaired_parts line = ["1"; "2"; "3 4 5 6"] /\
      parse_line line = Ok None).
Proof.
  split; [|split; [|split]].
  - intros line. unfold repaired_parts. cbv zeta.
    fold (too_few (naive_parts line)). unfold fixed_line.
    destruct (too_few (naive_parts line)); [left | right]; split; reflexivity.
  - intros line. unfold naive_parts, len, PyStr.sub_ws.
    rewrite !split_count.
    pose proof (sub_ws_go_count_le COL_SEP line 2 false).
    pose proof (sub_ws_go_count_ge COL_SEP line eq_refl 2%nat false).
    lia.
  - cbv zeta. split; [vm_compute; discriminate | vm_compute; reflexivity].
  - cbv zeta. split; vm_compute; reflexivity.
Qed.

(* ------------------------------------------------------------------ *)
(** ** Location extraction *)

Lemma blank_iff (field : string) :
  blank field <-> PyStr.truthy (PyStr.strip field) = false.
Proof. unfold blank. symmetry. apply truthy_false_iff. Qed.

Lemma known_token_iff (field : string) :
  known_token field <->
  in_skip_tokens (PyStr.lower (PyStr.strip field)) = true.
Proof. unfold known_token. symmetry. apply in_skip_tokens_iff. Qed.

Lemma numeric_like_iff (field : string) :
  numeric_like field <->
  PyStr.fullmatch_digits_hyphens (PyStr.strip field) = true.
Proof.
  unfold numeric_like, PyStr.fullmatch_digits_hyphens.
  rewrite andb_true_iff, truthy_true_iff. reflexivity.
Qed.

(** The verdict on a field, from the four tests taken as booleans. *)
Lemma examine_by_tests (field : string) :
  examine field =
  if negb (PyStr.truthy (PyStr.strip field)) then SkipBlank
  else if in_skip_tokens (PyStr.lower (PyStr.strip field)) then SkipKnownToken
  else if PyStr.contains SLASH (PyStr.strip field) then SkipDateLike
  else if PyStr.fullmatch_digits_hyphens (PyStr.strip field)
       then SkipNumericLike
  else Keep (PyStr.strip field).
Proof. reflexivity. Qed.

Lemma qualifies_by_tests (field : string) :
  qualifies field =
  PyStr.truthy (PyStr.strip field)
  && negb (in_skip_tokens (PyStr.lower (PyStr.strip field)))
  && negb (PyStr.contains SLASH (PyStr.strip field))
  && negb (PyStr.fullmatch_digits_hyphens (PyStr.strip field)).
Proof. reflexivity. Qed.

Lemma examine_qualifies (field : string) :
  qualifies field = true -> examine field = Keep (PyStr.strip field).
Proof.
  rewrite examine_by_tests, qualifies_by_tests.
  destruct (PyStr.truthy (PyStr.strip field)),
           (in_skip_tokens (PyStr.lower (PyStr.strip field))),
           (PyStr.contains SLASH (PyStr.strip field)),
           (PyStr.fullmatch_digits_hyphens (PyStr.strip field));
    simpl; intros H; try discriminate H; reflexivity.
Qed.

Lemma examine_not_qualifies (field : string) :
  qualifies field = false -> forall v, examine field <> Keep v.
Proof.
  rewrite examine_by_tests, qualifies_by_tests.
  destruct (PyStr.truthy (PyStr.strip field)),
           (in_skip_tokens (PyStr.lower (PyStr.strip field))),
           (PyStr.contains SLASH (PyStr.strip field)),
           (PyStr.fullmatch_digits_hyphens (PyStr.strip field));
    simpl; intros H v; try discriminate H; discriminate.
Qed.

Lemma scan_location_skip (field : string) (rest : list string) :
  qualifies field = false ->
  scan_location (field :: rest) = scan_location rest.
Proof.
  intros Hq. simpl.
  pose proof (examine_not_qualifies field Hq) as Hne.
  destruct (examine field) as [| | | |v]; try reflexivity.
  exfalso. apply (Hne v). reflexivity.
Qed.

Lemma scan_location_keep (field : string) (rest : list string) :
  qualifies field = true ->
  scan_location (field :: rest) = PyStr.strip field.
Proof.
  intros Hq. simpl. rewrite (examine_qualifies field Hq). reflexivity.
Qed.

(** The loop stops at the first field that qualifies. *)
Lemma scan_location_first (tokens : list string) :
  forall (i : nat) (field : string),
    nth_error tokens i = Some field ->
    qualifies field = true ->
    (forall (j : nat) (g : string),
        (j < i)%nat -> nth_error tokens j = Some g -> qualifies g = false) ->
    scan_location tokens = PyStr.strip field.
Proof.
  induction tokens as [|t rest IH]; intros i field Hnth Hq Hbefore.
  - destruct i; discriminate Hnth.
  - destruct i as [|i].
    + simpl in Hnth. injection Hnth as ->. apply scan_location_keep. exact Hq.
    + rewrite scan_location_skip.
      * apply (IH i field); [exact Hnth | exact Hq |].
        intros j g Hj Hg. apply (Hbefore (S j) g); [lia | exact Hg].
      * apply (Hbefore 0%nat t); [lia | reflexivity].
Qed.

Lemma scan_location_none (tokens : list string) :
  (forall g : string, In g tokens -> qualifies g = false) ->
  scan_location tokens = EmptyString.
Proof.
  induction tokens as [|t rest IH]; intros Hall; [reflexivity|].
  rewrite scan_location_skip by (apply Hall; left; reflexivity).
  apply IH. intros g Hg. apply Hall. right. exact Hg.
Qed.

(** Whatever the loop keeps is the trimmed form of a qualifying field, or
    nothing was kept and the result is empty. *)
Lemma scan_location_cases (tokens : list string) :
  (exists field, In field tokens /\ qualifies field = true /\
                 scan_location tokens = PyStr.strip field)
  \/ ((forall g, In g tokens -> qualifies g = false) /\
      scan_location tokens = EmptyString).
Proof.
  induction tokens as [|t rest IH].
  - right. split; [intros g [] | reflexivity].
  - destruct (qualifies t) eqn:Hq.
    + left. exists t. split; [left; reflexivity|]. split; [exact Hq|].
      apply scan_location_keep. exact Hq.
    + rewrite (scan_location_skip t rest Hq).
      destruct IH as [[field [Hin [Hf Hs]]] | [Hall Hs]].
      * left. exists field. split; [right; exact Hin|]. split; assumption.
      * right. split; [|exact Hs].
        intros g [<- | Hg]; [exact Hq | apply Hall; exact Hg].
Qed.

Lemma slice_from_nth (parts : list string) (i : nat) :
  (5 <= i)%nat ->
  nth_error (slice_from parts 5) (i - 5) = nth_error parts i.
Proof.
  intros Hi. unfold slice_from. rewrite nth_error_skipn.
  f_equal. change (Z.to_nat 5) with 5%nat. lia.
Qed.

Lemma slice_from_In (parts : list string) (g : string) :
  In g (slice_from parts 5) ->
  exists j : nat, (5 <= j)%nat /\ nth_error parts j = Some g.
Proof.
  intros Hin. apply In_nth_error in Hin. destruct Hin as [k Hk].
  unfold slice_from in Hk. rewrite nth_error_skipn in Hk.
  exists (Z.to_nat 5 + k)%nat. split; [|exact Hk].
  change (Z.to_nat 5) with 5%nat. lia.
Qed.

Lemma qualifies_iff_passes (field : string) :
  qualifies field = true <-> passes field.
Proof.
  unfold passes, date_like.
  rewrite qualifies_by_tests, blank_iff, known_token_iff, numeric_like_iff.
  case_tests field.
Qed.

Lemma examine_order (field : string) :
  (examine field = SkipBlank <-> blank field)
  /\ (examine field = SkipKnownToken <->
      ~ blank field /\ known_token field)
  /\ (examine field = SkipDateLike <->
      ~ blank field /\ ~ known_token field /\ date_like field)
  /\ (examine field = SkipNumericLike <->
      ~ blank field /\ ~ known_token field /\ ~ date_like field /\
      numeric_like field)
  /\ (forall v : string,
         examine field = Keep v <-> v = PyStr.strip field /\ passes field).
Proof.
  unfold passes, date_like.
  split; [|split; [|split; [|split; [|intros v]]]];
    rewrite examine_by_tests, ?blank_iff, ?known_token_iff, ?numeric_like_iff;
    case_tests field.
Qed.

Lemma single_any_case_is_skipped (field : string) :
  same_ignoring_case (PyStr.strip field) "Single" ->
  examine field = SkipKnownToken /\ qualifies field = false.
Proof.
  unfold same_ignoring_case. change (PyStr.lower "Single") with "single".
  intros Hlow.
  assert (Hknown : known_token field).
  { unfold known_token. rewrite Hlow. simpl. tauto. }
  assert (Hnb : ~ blank field).
  { unfold blank. intros Hb. rewrite Hb in Hlow. discriminate Hlow. }
  split.
  - apply (proj1 (proj2 (examine_order field))). split; assumption.
  - destruct (qualifies field) eqn:Hq; [|reflexivity].
    apply qualifies_iff_passes in Hq. destruct Hq as [_ [Hk _]]. contradiction.
Qed.

(** C2. The location candidate is the trimmed form of the first field at
    index 5 or later that is not blank, is not a skip token up to letter
    case, has no slash and is not made of digits and hyphens only.  The
    four tests are tried in that order on every field (the first one that
    applies decides the verdict), the scan stops at the first field that
    passes, and when no field passes the candidate is empty.  A field that
    reads "Single" in any letter case gets the known-token verdict and the
    scan moves on to the fields after it. *)
Theorem location_candidate_is_first_passing_field :
  (forall field : string,
      (examine field = SkipBlank <-> blank field)
      /\ (examine field = SkipKnownToken <->
          ~ blank field /\ known_token field)
      /\ (examine field = SkipDateLike <->
          ~ blank field /\ ~ known_token field /\ date_like field)
      /\ (examine field = SkipNumericLike <->
          ~ blank field /\ ~ known_token field /\ ~ date_like field /\
          numeric_like field)
      /\ (forall v : string,
             examine field = Keep v <->
             v = PyStr.strip field /\ passes field)
      /\ (qualifies field = true <-> passes field))
  /\ (forall (parts : list string) (i : nat) (field : string),
         (5 <= i)%nat ->
         nth_error parts i = Some field ->
         qualifies field = true ->
         (forall (j : nat) (g : string),
             (5 <= j < i)%nat -> nth_error parts j = Some g ->
             qualifies g = false) ->
         location_raw_of parts = PyStr.strip field)
  /\ (forall parts : list string,
         (forall (j : nat) (g : string),
             (5 <= j)%nat -> nth_error parts j = Some g ->
             qualifies g = false) ->
         location_raw_of parts = EmptyString)
  /\ (forall (field : string) (rest : list string),
         same_ignoring_case (PyStr.strip field) "Single" ->
         examine field = SkipKnownToken /\
         scan_location (field :: rest) = scan_location rest).
Proof.
  split; [|split; [|split]].
  - intros field.
    destruct (examine_order field) as [H1 [H2 [H3 [H4 H5]]]].
    repeat (split; [assumption|]). apply qualifies_iff_passes.
  - intros parts i field Hi Hnth Hq Hbefore. unfold location_raw_of.
    apply (scan_location_first _ (i - 5) field).
    + rewrite slice_from_nth by exact Hi. exact Hnth.
    + exact Hq.
    + intros j g Hj Hg. apply (Hbefore (5 + j)%nat g); [lia|].
      rewrite <- (slice_from_nth parts (5 + j)) by lia.
      replace (5 + j - 5)%nat with j by lia. exact Hg.
  - intros parts Hall. unfold location_raw_of. apply scan_location_none.
    intros g Hg. destruct (slice_from_In parts g Hg) as [j [Hj Hnth]].
    apply (Hall j g); assumption.
  - intros field rest Hsame.
    destruct (single_any_case_is_skipped field Hsame) as [Hv Hq].
    split; [exact Hv | apply scan_location_skip; exact Hq].
Qed.

Lemma location_candidate_is_first_passing_field_witness :
  location_raw_of
    ["555"; "1"; "Ann"; "Lee"; "female"; " sInGlE "; "09/01/1971"; "12-3";
     " Paris, France "; "Rome"]
  = "Paris, France"
  /\ scan_location ["SINGLE"; "Rome"] = scan_location ["Rome"].
Proof.
  split.
  - apply (proj1 (proj2 location_candidate_is_first_passing_field)
             ["555"; "1"; "Ann"; "Lee"; "female"; " sInGlE "; "09/01/1971";
              "12-3"; " Paris, France "; "Rome"] 8%nat " Paris, France ").
    + repeat constructor.
    + reflexivity.
    + reflexivity.
    + intros j g Hj Hg.
      destruct j as [|[|[|[|[|[|[|[|j]]]]]]]];
        simpl in Hg; try (exfalso; lia);
        injection Hg as <-; reflexivity.
  - apply (proj2 (proj2 (proj2 location_candidate_is_first_passing_field))
             "SINGLE" ["Rome"]).
    reflexivity.
Defined.

(* ------------------------------------------------------------------ *)
(** ** Location normalization *)

Lemma parse_line_yields (raw_line phone first last city : string) :
  parse_line raw_line = Ok (Some (phone, first, last, city)) ->
  too_few (field_vector raw_line) = false
  /\ phone = PyStr.strip (nth 0 (field_vector raw_line) EmptyString)
  /\ first = PyStr.strip (nth 2 (field_vector raw_line) EmptyString)
  /\ last = PyStr.strip (nth 3 (field_vector raw_line) EmptyString)
  /\ city = normalized_city (location_raw_of (field_vector raw_line)).
Proof.
  rewrite parse_line_value.
  destruct (too_few (field_vector raw_line)); intros H; [discriminate H|].
  injection H as <- <- <- <-. repeat split; reflexivity.
Qed.

Lemma normalized_city_segments (candidate s : string) (rest : list string) :
  PyStr.contains COMMA candidate = true ->
  comma_segments candidate = s :: rest ->
  normalized_city candidate = List.last (s :: rest) s ++ ": " ++ s.
Proof.
  intros Hcomma Hsegs. unfold normalized_city. rewrite Hcomma, Hsegs.
  reflexivity.
Qed.

Lemma normalized_city_verbatim (candidate : string) :
  PyStr.contains COMMA candidate = false ->
  normalized_city candidate = candidate.
Proof. intros Hcomma. unfold normalized_city. rewrite Hcomma. reflexivity. Qed.

(** C1. Whenever a line yields a record: if the location candidate has a
    comma and its comma-separated pieces, trimmed and with the empty ones
    dropped, are [s :: rest], the City field is the last of them, then
    ": ", then the first, [s]; whatever lies between is dropped.  If the
    candidate has no comma the City field is the candidate itself.  On
    the three lines below the candidates are "Springfield, USA",
    "Springfield, Oregon, USA" and "Springfield", and the City fields
    "USA: Springfield", "USA: Springfield" and "Springfield". *)
Theorem city_field_is_country_colon_city :
  (forall raw_line phone first last city : string,
      parse_line raw_line = Ok (Some (phone, first, last, city)) ->
      (forall (s : string) (rest : list string),
          PyStr.contains COMMA (location_raw_of (field_vector raw_line))
          = true ->
          comma_segments (location_raw_of (field_vector raw_line))
          = s :: rest ->
          city = List.last (s :: rest) s ++ ": " ++ s)
      /\ (PyStr.contains COMMA (location_raw_of (field_vector raw_line))
          = false ->
          city = location_raw_of (field_vector raw_line)))
  /\ (location_raw_of
        (field_vector (text_line "555:1:Ann:Lee:female:Springfield, USA"))
      = "Springfield, USA"
      /\ parse_line (text_line "555:1:Ann:Lee:female:Springfield, USA")
         = Ok (Some ("555", "Ann", "Lee", "USA: Springfield")))
  /\ (location_raw_of
        (field_vector
           (text_line "555:1:Ann:Lee:female:Springfield, Oregon, USA"))
      = "Springfield, Oregon, USA"
      /\ parse_line
           (text_line "555:1:Ann:Lee:female:Springfield, Oregon, USA")
         = Ok (Some ("555", "Ann", "Lee", "USA: Springfield")))
  /\ (location_raw_of
        (field_vector (text_line "555:1:Ann:Lee:female:Springfield"))
      = "Springfield"
      /\ parse_line (text_line "555:1:Ann:Lee:female:Springfield")
         = Ok (Some ("555", "Ann", "Lee", "Springfield"))).
Proof.
  split; [|repeat split; vm_compute; reflexivity].
  intros raw_line phone first last city Hyield.
  destruct (parse_line_yields _ _ _ _ _ Hyield) as [_ [_ [_ [_ Hcity]]]].
  split.
  - intros s rest Hcomma Hsegs. rewrite Hcity.
    apply normalized_city_segments; assumption.
  - intros Hcomma. rewrite Hcity. apply normalized_city_verbatim. exact Hcomma.
Qed.

Lemma city_field_is_country_colon_city_witness :
  "France: Paris" = List.last ["Paris"; "Ile-de-France"; "France"] "Paris"
                    ++ ": " ++ "Paris".
Proof.
  apply (proj1 (proj1 city_field_is_country_colon_city
                  "555:1:Ann:Lee:female: Paris ,, Ile-de-France , France "
                  "555" "Ann" "Lee" "France: Paris" eq_refl)
               "Paris" ["Ile-de-France"; "France"]).
  - reflexivity.
  - reflexivity.
Defined.

(** C7. Whenever a line yields a record whose location candidate has a
    comma and exactly one trimmed non-empty piece, the City field is that
    piece, ": ", and that piece again.  The candidate "USA," gives
    "USA: USA". *)
Theorem single_segment_is_country_and_city :
  (forall raw_line phone first last city seg : string,
      parse_line raw_line = Ok (Some (phone, first, last, city)) ->
      PyStr.contains COMMA (location_raw_of (field_vector raw_line)) = true ->
      comma_segments (location_raw_of (field_vector raw_line)) = [seg] ->
      city = seg ++ ": " ++ seg)
  /\ location_raw_of (field_vector (text_line "555:1:Ann:Lee:female:USA,"))
     = "USA,"
  /\ comma_segments "USA," = ["USA"]
  /\ parse_line (text_line "555:1:Ann:Lee:female:USA,")
     = Ok (Some ("555", "Ann", "Lee", "USA: USA")).
Proof.
  split; [|repeat split; vm_compute; reflexivity].
  intros raw_line phone first last city seg Hyield Hcomma Hsegs.
  destruct (parse_line_yields _ _ _ _ _ Hyield) as [_ [_ [_ [_ Hcity]]]].
  rewrite Hcity.
  rewrite (normalized_city_segments _ seg [] Hcomma Hsegs). reflexivity.
Qed.

Lemma single_segment_is_country_and_city_witness :
  "USA: USA" = "USA" ++ ": " ++ "USA".
Proof.
  apply (proj1 single_segment_is_country_and_city
               "555:1:Ann:Lee:female: , USA ,"
               "555" "Ann" "Lee" "USA: USA" "USA").
  - reflexivity.
  - reflexivity.
  - reflexivity.
Defined.

Lemma qualifies_no_slash (field : string) :
  qualifies field = true ->
  PyStr.contains SLASH (PyStr.strip field) = false.
Proof.
  rewrite qualifies_by_tests.
  destruct (PyStr.truthy (PyStr.strip field)),
           (in_skip_tokens (PyStr.lower (PyStr.strip field))),
           (PyStr.contains SLASH (PyStr.strip field)),
           (PyStr.fullmatch_digits_hyphens (PyStr.strip field));
    simpl; intros H; try discriminate H; reflexivity.
Qed.

Lemma location_raw_no_slash (parts : list string) :
  PyStr.contains SLASH (location_raw_of parts) = false.
Proof.
  unfold location_raw_of.
  destruct (scan_location_cases (slice_from parts 5))
    as [[field [_ [Hq Hs]]] | [_ Hs]]; rewrite Hs.
  - apply qualifies_no_slash. exact Hq.
  - reflexivity.
Qed.

(** C8. A line with enough fields in which no field at index 5 or later
    passes the four exclusions still yields a record, and its City field
    is empty.  A field with a slash never passes, and the location
    candidate never has a slash, so a date is never the location: the
    line whose only field from index 5 on is "09/01/1971" yields a record
    with an empty City. *)
Theorem no_candidate_gives_empty_city :
  (forall raw_line : string,
      too_few (field_vector raw_line) = false ->
      (forall (j : nat) (g : string),
          (5 <= j)%nat -> nth_error (field_vector raw_line) j = Some g ->
          qualifies g = false) ->
      exists phone first last : string,
        parse_line raw_line = Ok (Some (phone, first, last, EmptyString)))
  /\ (forall field : string, date_like field -> qualifies field = false)
  /\ (forall parts : list string,
         PyStr.contains SLASH (location_raw_of parts) = false)
  /\ field_vector (text_line "555:1:Ann:Lee:female:09/01/1971")
     = ["555"; "1"; "Ann"; "Lee"; "female"; "09/01/1971"]
  /\ parse_line (text_line "555:1:Ann:Lee:female:09/01/1971")
     = Ok (Some ("555", "Ann", "Lee", EmptyString)).
Proof.
  split; [|split; [|split; [|split]]].
  - intros raw_line Hfew Hnone.
    exists (PyStr.strip (nth 0 (field_vector raw_line) EmptyString)),
           (PyStr.strip (nth 2 (field_vector raw_line) EmptyString)),
           (PyStr.strip (nth 3 (field_vector raw_line) EmptyString)).
    rewrite parse_line_value, Hfew.
    assert (Hloc : location_raw_of (field_vector raw_line) = EmptyString).
    { unfold location_raw_of. apply scan_location_none.
      intros g Hg. destruct (slice_from_In _ g Hg) as [j [Hj Hnth]].
      apply (Hnone j g); assumption. }
    rewrite Hloc. reflexivity.
  - intros field Hdate. unfold date_like in Hdate.
    destruct (qualifies field) eqn:Hq; [|reflexivity].
    apply qualifies_no_slash in Hq. congruence.
  - apply location_raw_no_slash.
  - vm_compute. reflexivity.
  - vm_compute. reflexivity.
Qed.

Lemma no_candidate_gives_empty_city_witness :
  exists phone first last : string,
    parse_line "555:1:Ann:Lee:female:09/01/1971:Married: :2024-01-01"
    = Ok (Some (phone, first, last, EmptyString)).
Proof.
  apply (proj1 no_candidate_gives_empty_city
               "555:1:Ann:Lee:female:09/01/1971:Married: :2024-01-01").
  - reflexivity.
  - intros j g Hj Hg.
    destruct j as [|[|[|[|[|[|[|[|[|j]]]]]]]]];
      simpl in Hg; try (exfalso; lia);
      try (destruct j; discriminate Hg);
      injection Hg as <-; reflexivity.
Defined.

(* ------------------------------------------------------------------ *)
(** ** The driver *)

Lemma rows_written_app (d : list workbook) (w : workbook) :
  rows_written (d ++ [w]) = (rows_written d ++ wb_rows w)%list.
Proof.
  unfold rows_written. rewrite map_app, concat_app. simpl.
  rewrite app_nil_r. reflexivity.
Qed.

Lemma numbered_from_one_app (d : list workbook) (w : workbook) :
  numbered_from_one d ->
  wb_part w = 1 + len d ->
  numbered_from_one (d ++ [w]).
Proof.
  unfold numbered_from_one, parts_upto. intros Hd Hw.
  rewrite map_app, length_app, Hd. simpl List.length.
  rewrite Nat.add_1_r, seq_S, map_app. simpl. rewrite Hw.
  unfold len. do 3 f_equal. lia.
Qed.

Lemma all_full_rows (limit : Z) (d : list workbook) :
  all_full limit d -> len (rows_written d) = limit * len d.
Proof.
  unfold all_full, rows_written. induction 1 as [|w d Hw _ IH].
  - unfold len. simpl. lia.
  - simpl. rewrite len_app, IH, Hw, len_cons. lia.
Qed.

Lemma all_full_removelast (limit : Z) (d : list workbook) :
  all_full limit d -> all_full limit (removelast d).
Proof.
  unfold all_full. intros H. apply Forall_forall. intros w Hin.
  rewrite Forall_forall in H. apply H.
  clear H. induction d as [|a d IH]; [contradiction|].
  simpl in Hin. destruct d as [|b d]; [contradiction|].
  destruct Hin as [<- | Hin]; [left; reflexivity | right; apply IH; exact Hin].
Qed.

Section DriverFacts.

Variable limit : Z.
Hypothesis limit_positive : 0 < limit.

Lemma loop_inv_start : loop_inv limit [] start.
Proof.
  unfold loop_inv, start, all_full, numbered_from_one. simpl.
  repeat split; try constructor. rewrite len_nil. exact limit_positive.
Qed.

Lemma loop_body_not_full (st : driver) (r : row) :
  len (buffer st ++ [r]) <> limit ->
  loop_body limit st r = append_row st r.
Proof.
  intros Hne. unfold loop_body. cbv zeta.
  change (buffer (append_row st r)) with (buffer st ++ [r])%list.
  apply Z.eqb_neq in Hne. rewrite Hne. reflexivity.
Qed.

Lemma loop_body_full (st : driver) (r : row) :
  len (buffer st ++ [r]) = limit ->
  loop_body limit st r = flush (append_row st r).
Proof.
  intros Heq. unfold loop_body. cbv zeta.
  change (buffer (append_row st r)) with (buffer st ++ [r])%list.
  apply Z.eqb_eq in Heq. rewrite Heq. reflexivity.
Qed.

Lemma loop_inv_flush (seen : list row) (st : driver) :
  (rows_written (disk st) ++ buffer st)%list = seen ->
  all_full limit (disk st) ->
  numbered_from_one (disk st) ->
  part_no st = 1 + len (disk st) ->
  len (buffer st) = limit ->
  loop_inv limit seen (flush st).
Proof.
  intros Hseen Hfull Hnum Hpart Hlen.
  unfold loop_inv, flush, write_chunk. cbn [part_no buffer disk].
  split; [|split; [|split; [|split]]].
  - rewrite rows_written_app. cbn [wb_rows]. rewrite app_nil_r. exact Hseen.
  - unfold all_full. apply Forall_app. split; [exact Hfull|].
    constructor; [exact Hlen | constructor].
  - apply numbered_from_one_app; [exact Hnum | exact Hpart].
  - rewrite len_app. change (len [_]) with 1. lia.
  - rewrite len_nil. exact limit_positive.
Qed.

Lemma loop_inv_body (seen : list row) (st : driver) (r : row) :
  loop_inv limit seen st ->
  loop_inv limit (seen ++ [r]) (loop_body limit st r).
Proof.
  intros [Hseen [Hfull [Hnum [Hpart Hlen]]]].
  destruct (Z.eq_dec (len (buffer st ++ [r])) limit) as [Heq | Hne].
  - rewrite (loop_body_full st r Heq).
    apply loop_inv_flush; cbn [append_row part_no buffer disk]; try assumption.
    rewrite app_assoc, Hseen. reflexivity.
  - rewrite (loop_body_not_full st r Hne).
    unfold loop_inv, append_row. cbn [part_no buffer disk].
    split; [|split; [|split; [|split]]]; try assumption.
    + rewrite app_assoc, Hseen. reflexivity.
    + rewrite len_app in *. change (len [r]) with 1 in *. lia.
Qed.

Lemma loop_inv_fold (rows seen : list row) (st : driver) :
  loop_inv limit seen st ->
  loop_inv limit (seen ++ rows) (fold_left (loop_body limit) rows st).
Proof.
  revert seen st. induction rows as [|r rows IH]; intros seen st Hinv.
  - rewrite app_nil_r. exact Hinv.
  - simpl fold_left.
    replace (seen ++ r :: rows)%list with ((seen ++ [r]) ++ rows)%list
      by (rewrite <- app_assoc; reflexivity).
    apply IH. apply loop_inv_body. exact Hinv.
Qed.

(** After the remainder test: every row is on disk, in order. *)
Lemma write_remainder_facts (seen : list row) (st : driver) :
  loop_inv limit seen st ->
  rows_written (disk (write_remainder st)) = seen
  /\ only_last_smaller limit (disk (write_remainder st))
  /\ numbered_from_one (disk (write_remainder st))
  /\ len (disk (write_remainder st)) = ceil_div (len seen) limit
  /\ buffer (write_remainder st) = buffer st.
Proof.
  intros [Hseen [Hfull [Hnum [Hpart Hlen]]]].
  pose proof (all_full_rows limit (disk st) Hfull) as Hrows.
  pose proof (len_nonneg (disk st)) as Hd.
  assert (Hcount : len seen = limit * len (disk st) + len (buffer st)).
  { rewrite <- Hseen, len_app, Hrows. reflexivity. }
  unfold write_remainder. destruct (buffer st) as [|b bs] eqn:Hbuf.
  - rewrite app_nil_r in Hseen. rewrite len_nil in Hcount.
    split; [exact Hseen|]. split; [|split; [exact Hnum|split; [|exact Hbuf]]].
    + split; [apply all_full_removelast; exact Hfull|].
      unfold all_full in Hfull. eapply Forall_impl; [|exact Hfull].
      cbv beta. intros w Hw. lia.
    + unfold ceil_div. apply (Z.div_unique _ _ _ (limit - 1)); lia.
  - cbn [part_no buffer disk]. unfold write_chunk.
    pose proof (len_nonneg bs) as Hbs. rewrite len_cons in Hlen, Hcount.
    split; [|split; [|split; [|split; [|reflexivity]]]].
    + rewrite rows_written_app. exact Hseen.
    + split.
      * rewrite removelast_last. exact Hfull.
      * apply Forall_app. split.
        -- unfold all_full in Hfull. eapply Forall_impl; [|exact Hfull].
           cbv beta. intros w Hw. lia.
        -- constructor; [|constructor]. cbn [wb_rows]. rewrite len_cons. lia.
    + apply numbered_from_one_app; [exact Hnum | exact Hpart].
    + rewrite len_app. change (len [_]) with 1.
      unfold ceil_div.
      apply (Z.div_unique _ _ _ (len bs)); lia.
Qed.

Lemma drive_facts (rows : list row) :
  rows_written (disk (drive limit rows)) = rows
  /\ only_last_smaller limit (disk (drive limit rows))
  /\ numbered_from_one (disk (drive limit rows))
  /\ len (disk (drive limit rows)) = ceil_div (len rows) limit.
Proof.
  pose proof (loop_inv_fold rows [] start loop_inv_start) as Hinv.
  simpl in Hinv.
  destruct (write_remainder_facts rows _ Hinv) as [H1 [H2 [H3 [H4 _]]]].
  unfold drive. repeat split; try assumption; apply H2.
Qed.

End DriverFacts.

Section MachineFacts.

Variable limit : Z.
Hypothesis limit_positive : 0 < limit.
Variable rows : list row.

Lemma config_inv_initial : config_inv limit rows (initial rows).
Proof.
  unfold config_inv, initial. cbn [pc pending vars].
  exists []. split; [reflexivity | apply loop_inv_start; exact limit_positive].
Qed.

Lemma config_inv_step (c c' : config) :
  config_inv limit rows c -> step limit c = Some c' ->
  config_inv limit rows c'.
Proof.
  destruct c as [ph pend st]. unfold config_inv, step.
  cbn [pc pending vars]. destruct ph.
  - (* Reading *)
    intros [seen [Hrows Hinv]]. destruct pend as [|r rest].
    + intros Hstep. injection Hstep as <-. cbn [pc pending vars].
      rewrite app_nil_r in Hrows. subst seen.
      destruct (write_remainder_facts limit limit_positive rows st Hinv)
        as [H1 [H2 [H3 [_ H5]]]].
      destruct Hinv as [Hseen [_ [_ [_ Hlen]]]].
      repeat split; try assumption; try apply H2.
      * rewrite H5. exact Hlen.
      * intros r Hr. rewrite H5 in Hr. rewrite <- Hseen.
        apply in_or_app. right. exact Hr.
    + intros Hstep. injection Hstep as <-.
      change (buffer (append_row st r)) with (buffer st ++ [r])%list.
      assert (Hrows' : ((seen ++ [r]) ++ rest)%list = rows)
        by (rewrite <- app_assoc; exact Hrows).
      destruct (Z.eq_dec (len (buffer st ++ [r])) limit) as [Heq | Hne].
      * pose proof Heq as Heqb. apply Z.eqb_eq in Heqb. rewrite Heqb.
        cbn [pc pending vars]. exists (seen ++ [r])%list.
        destruct Hinv as [Hseen [Hfull [Hnum [Hpart Hlen]]]].
        unfold append_row. cbn [part_no buffer disk].
        repeat split; try assumption.
        rewrite app_assoc, Hseen. reflexivity.
      * pose proof Hne as Hneb. apply Z.eqb_neq in Hneb. rewrite Hneb.
        cbn [pc pending vars]. exists (seen ++ [r])%list.
        split; [exact Hrows'|].
        rewrite <- (loop_body_not_full limit st r Hne).
        apply loop_inv_body; assumption.
  - (* Flushing *)
    intros [seen [Hrows [Hseen [Hfull [Hnum [Hpart Hlen]]]]]] Hstep.
    injection Hstep as <-. cbn [pc pending vars].
    exists seen. split; [exact Hrows|].
    apply loop_inv_flush; assumption.
  - (* Done *)
    intros _ Hstep. discriminate Hstep.
Qed.

Lemma reachable_config_inv (c : config) :
  reachable limit rows c -> config_inv limit rows c.
Proof.
  induction 1 as [|c c' _ IH Hstep].
  - apply config_inv_initial.
  - apply (config_inv_step c c'); assumption.
Qed.

(** The machine and the loop agree: from a reading configuration the
    machine gets to [Done] with the variables the loop computes. *)
Lemma reachable_done_from (pend : list row) :
  forall st : driver,
    reachable limit rows {| pc := Reading; pending := pend; vars := st |} ->
    reachable limit rows
      {| pc := Done; pending := [];
         vars := write_remainder (fold_left (loop_body limit) pend st) |}.
Proof.
  induction pend as [|r rest IH]; intros st Hreach.
  - eapply reach_step; [exact Hreach | reflexivity].
  - simpl fold_left. apply IH.
    destruct (Z.eq_dec (len (buffer st ++ [r])) limit) as [Heq | Hne].
    + rewrite (loop_body_full limit st r Heq).
      eapply reach_step; [eapply reach_step; [exact Hreach | reflexivity]|].
      unfold step. cbn [pc pending vars].
      change (buffer (append_row st r)) with (buffer st ++ [r])%list.
      apply Z.eqb_eq in Heq. rewrite Heq. reflexivity.
    + rewrite (loop_body_not_full limit st r Hne).
      eapply reach_step; [exact Hreach|].
      unfold step. cbn [pc pending vars].
      change (buffer (append_row st r)) with (buffer st ++ [r])%list.
      apply Z.eqb_neq in Hne. rewrite Hne. reflexivity.
Qed.

Lemma reachable_done :
  reachable limit rows
    {| pc := Done; pending := []; vars := drive limit rows |}.
Proof. apply reachable_done_from. apply reach_initial. Qed.

End MachineFacts.

Lemma chunk_limit_positive : 0 < CHUNK_LIMIT.
Proof. reflexivity. Qed.

Lemma all_full_only_last_smaller (limit : Z) (d : list workbook) :
  0 < limit -> all_full limit d -> only_last_smaller limit d.
Proof.
  intros Hpos Hfull. split; [apply all_full_removelast; exact Hfull|].
  unfold all_full in Hfull. eapply Forall_impl; [|exact Hfull].
  cbv beta. intros w Hw. lia.
Qed.

Lemma process_txt_value (fp : list string) :
  process_txt fp = Ok (drive CHUNK_LIMIT (flat_map yield_of fp)).
Proof. unfold process_txt. rewrite parse_rows_value. reflexivity. Qed.

(** Two and a half chunks of rows make three workbooks. *)
Lemma five_halves (limit : Z) (rows : list row) :
  0 < limit -> 2 * len rows = 5 * limit ->
  map part_and_size (disk (drive limit rows))
  = [(1, limit); (2, limit); (3, len rows - 2 * limit)].
Proof.
  intros Hpos Hlen.
  destruct (drive_facts limit Hpos rows) as [Hrows [[Hfull Hsizes] [Hnum Hcount]]].
  assert (Hthree : len (disk (drive limit rows)) = 3).
  { rewrite Hcount. unfold ceil_div. symmetry.
    apply (Z.div_unique _ _ _ (len rows - 2 * limit - 1)); lia. }
  destruct (disk (drive limit rows)) as [|w1 [|w2 [|w3 [|w4 d]]]];
    try (unfold len in Hthree; simpl in Hthree; lia).
  unfold numbered_from_one, parts_upto in Hnum. simpl in Hnum.
  injection Hnum as Hp1 Hp2 Hp3.
  unfold all_full in Hfull. simpl in Hfull.
  pose proof (Forall_inv Hfull) as Hw1. cbv beta in Hw1.
  pose proof (Forall_inv (Forall_inv_tail Hfull)) as Hw2. cbv beta in Hw2.
  unfold rows_written in Hrows. simpl in Hrows. rewrite app_nil_r in Hrows.
  assert (Hw3 : len (wb_rows w3) = len rows - 2 * limit).
  { rewrite <- Hrows. rewrite !len_app. lia. }
  unfold part_and_size. simpl map. rewrite Hp1, Hp2, Hp3, Hw1, Hw2, Hw3.
  reflexivity.
Qed.

(** C5. On [Q] yielded rows the driver writes [ceil(Q / 1000000)]
    workbooks: they carry the part numbers 1, 2, ... in the order they are
    written, hold the rows in order, and all but the last hold exactly
    1,000,000 rows.  With [Q = 2500000] there are three, of 1,000,000,
    1,000,000 and 500,000 rows under the numbers 1, 2 and 3.  With no row
    at all nothing is written, [process_txt] returns normally and the run
    ends with status 0, reading the file not raising. *)
Theorem workbook_count_is_ceiling :
  (forall rows : list row,
      len (disk (drive CHUNK_LIMIT rows)) = ceil_div (len rows) CHUNK_LIMIT
      /\ CHUNK_LIMIT * (len (disk (drive CHUNK_LIMIT rows)) - 1) < len rows
         <= CHUNK_LIMIT * len (disk (drive CHUNK_LIMIT rows))
      /\ numbered_from_one (disk (drive CHUNK_LIMIT rows))
      /\ rows_written (disk (drive CHUNK_LIMIT rows)) = rows
      /\ only_last_smaller CHUNK_LIMIT (disk (drive CHUNK_LIMIT rows)))
  /\ (forall rows : list row,
         len rows = 2500000 ->
         map part_and_size (disk (drive CHUNK_LIMIT rows))
         = [(1, 1000000); (2, 1000000); (3, 500000)])
  /\ disk (drive CHUNK_LIMIT []) = []
  /\ (forall fp : list string,
         parse_rows fp = Ok [] ->
         exists st : driver, process_txt fp = Ok st /\ disk st = [])
  /\ (forall (e : env) (out : list message) (p : path),
         is_file e p = true ->
         parse_rows (read_lines e p) = Ok [] ->
         written (run_on e out p) = []
         /\ (read_raises e p = false -> exit_status (run_on e out p) = 0)).
Proof.
  split; [|split; [|split; [|split]]].
  - intros rows.
    destruct (drive_facts CHUNK_LIMIT chunk_limit_positive rows)
      as [Hrows [Hsizes [Hnum Hcount]]].
    repeat split; try assumption; try apply Hsizes.
    + rewrite Hcount. unfold ceil_div.
      pose proof (Z.mul_div_le (len rows + CHUNK_LIMIT - 1) CHUNK_LIMIT
                    chunk_limit_positive).
      pose proof (Z.mod_pos_bound (len rows + CHUNK_LIMIT - 1) CHUNK_LIMIT
                    chunk_limit_positive).
      pose proof (Z.div_mod (len rows + CHUNK_LIMIT - 1) CHUNK_LIMIT).
      unfold CHUNK_LIMIT in *. lia.
    + rewrite Hcount. unfold ceil_div.
      pose proof (Z.mod_pos_bound (len rows + CHUNK_LIMIT - 1) CHUNK_LIMIT
                    chunk_limit_positive).
      pose proof (Z.div_mod (len rows + CHUNK_LIMIT - 1) CHUNK_LIMIT).
      unfold CHUNK_LIMIT in *. lia.
  - intros rows Hlen.
    rewrite (five_halves CHUNK_LIMIT rows chunk_limit_positive)
      by (rewrite Hlen; reflexivity).
    rewrite Hlen. reflexivity.
  - reflexivity.
  - intros fp Hnone. unfold process_txt. rewrite Hnone.
    exists (drive CHUNK_LIMIT []). split; reflexivity.
  - intros e out p Hfile Hnone. unfold run_on, process_txt_in.
    rewrite Hfile, Hnone. cbn [negb loop_in].
    destruct (read_raises e p); cbn.
    + split; [reflexivity | discriminate].
    + split; reflexivity.
Qed.

Lemma workbook_count_is_ceiling_witness :
  map part_and_size
      (disk (drive CHUNK_LIMIT
                   (repeat ("555", "Ann", "Lee", "Rome") (Z.to_nat 2500000))))
  = [(1, 1000000); (2, 1000000); (3, 500000)].
Proof.
  apply (proj1 (proj2 workbook_count_is_ceiling)
               (repeat ("555", "Ann", "Lee", "Rome") (Z.to_nat 2500000))).
  unfold len. rewrite repeat_length. apply Z2Nat.id. discriminate.
Defined.

Lemma yielded_row_origin (fp : list string) (r : row) :
  In r (flat_map yield_of fp) ->
  exists raw_line : string,
    In raw_line fp /\ unparsable raw_line = false /\
    r = record_of raw_line /\ parse_line raw_line = Ok (Some r).
Proof.
  intros Hin. apply in_flat_map in Hin. destruct Hin as [raw_line [Hfp Hr]].
  exists raw_line. split; [exact Hfp|].
  rewrite yield_of_value in Hr.
  destruct (unparsable raw_line) eqn:Hun; [contradiction|].
  destruct Hr as [<- | []]. split; [reflexivity|]. split; [reflexivity|].
  rewrite parse_line_value. unfold unparsable in Hun. rewrite Hun. reflexivity.
Qed.

(** C6. In every configuration the driver goes through on the rows that
    [parse_rows] yields for a file: each row in the batch or in a written
    workbook is the 4-tuple (phone, first name, last name, city) of a line
    of the file, in that order; the batch holds at most [CHUNK_LIMIT]
    rows; every workbook written so far holds exactly [CHUNK_LIMIT] rows,
    but the last one once the run is over, which holds between 1 and
    [CHUNK_LIMIT]; the workbooks carry the part numbers 1, 2, 3, ... in
    the order they were written, and until the run is over the next
    number to use is one more than the number of workbooks. *)
Theorem driver_invariants :
  forall (fp : list string) (rows : list row) (c : config),
    parse_rows fp = Ok rows ->
    reachable CHUNK_LIMIT rows c ->
    (forall r : row,
        In r (buffer (vars c)) \/ In r (rows_written (disk (vars c))) ->
        exists raw_line : string,
          In raw_line fp /\ r = record_of raw_line /\
          parse_line raw_line = Ok (Some r))
    /\ len (buffer (vars c)) <= CHUNK_LIMIT
    /\ only_last_smaller CHUNK_LIMIT (disk (vars c))
    /\ (pc c <> Done -> all_full CHUNK_LIMIT (disk (vars c)))
    /\ numbered_from_one (disk (vars c))
    /\ (pc c <> Done -> part_no (vars c) = 1 + len (disk (vars c))).
Proof.
  intros fp rows c Hparse Hreach.
  rewrite parse_rows_value in Hparse. injection Hparse as Hrows.
  pose proof (reachable_config_inv CHUNK_LIMIT chunk_limit_positive rows c
                Hreach) as Hinv.
  assert (Horigin : forall r : row, In r rows ->
            exists raw_line : string,
              In raw_line fp /\ r = record_of raw_line /\
              parse_line raw_line = Ok (Some r)).
  { intros r Hr. rewrite <- Hrows in Hr.
    destruct (yielded_row_origin fp r Hr) as [raw_line [H1 [_ [H3 H4]]]].
    exists raw_line. repeat split; assumption. }
  unfold config_inv in Hinv. destruct (pc c) eqn:Hpc.
  - destruct Hinv as [seen [Hsplit [Hseen [Hfull [Hnum [Hpart Hlen]]]]]].
    split; [|split; [|split; [|split; [|split]]]].
    + intros r Hr. apply Horigin. rewrite <- Hsplit, <- Hseen.
      apply in_or_app. left. apply in_or_app. tauto.
    + lia.
    + apply all_full_only_last_smaller; [apply chunk_limit_positive | exact Hfull].
    + intros _. exact Hfull.
    + exact Hnum.
    + intros _. exact Hpart.
  - destruct Hinv as [seen [Hsplit [Hseen [Hfull [Hnum [Hpart Hlen]]]]]].
    split; [|split; [|split; [|split; [|split]]]].
    + intros r Hr. apply Horigin. rewrite <- Hsplit, <- Hseen.
      apply in_or_app. left. apply in_or_app. tauto.
    + lia.
    + apply all_full_only_last_smaller; [apply chunk_limit_positive | exact Hfull].
    + intros _. exact Hfull.
    + exact Hnum.
    + intros _. exact Hpart.
  - destruct Hinv as [_ [Hwritten [Hsizes [Hnum [Hlen Hbuf]]]]].
    split; [|split; [|split; [|split; [|split]]]].
    + intros r [Hr | Hr]; apply Horigin.
      * apply Hbuf. exact Hr.
      * rewrite <- Hwritten. exact Hr.
    + lia.
    + exact Hsizes.
    + intros Hne. congruence.
    + exact Hnum.
    + intros Hne. congruence.
Qed.

Lemma driver_invariants_witness :
  len [("555", "Ann", "Lee", "Italy: Rome")] <= CHUNK_LIMIT.
Proof.
  refine (proj1 (proj2
    (driver_invariants
       ["555:1:Ann:Lee:female:Rome, Italy"; "too:short"]
       [("555", "Ann", "Lee", "Italy: Rome")]
       {| pc := Reading; pending := [];
          vars := {| part_no := 1;
                     buffer := [("555", "Ann", "Lee", "Italy: Rome")];
                     disk := [] |} |}
       _ _))).
  - reflexivity.
  - eapply reach_step; [apply reach_initial | reflexivity].
Defined.

Lemma parse_rows_filter (fp : list string) :
  flat_map yield_of (filter (fun l => negb (unparsable l)) fp)
  = flat_map yield_of fp.
Proof.
  induction fp as [|raw_line rest IH]; [reflexivity|].
  simpl filter. destruct (unparsable raw_line) eqn:Hun; cbn [negb].
  - rewrite IH.
    change (flat_map yield_of (raw_line :: rest))
      with (yield_of raw_line ++ flat_map yield_of rest)%list.
    rewrite yield_of_value, Hun. reflexivity.
  - change (flat_map yield_of (raw_line :: ?l))
      with (yield_of raw_line ++ flat_map yield_of l)%list.
    simpl flat_map. rewrite IH. reflexivity.
Qed.

(** C4. A line whose field vector still has too few fields after the
    repair attempt yields no record and raises nothing; every other line
    yields one.  Reading goes on after such a line: the file without
    those lines yields the same records.  The number of records yielded
    over a file, and the number of rows the driver writes, is the number
    of lines minus the number of such lines. *)
Theorem unparsable_lines_are_skipped :
  forall fp : list string,
    Forall (fun raw_line => parse_line raw_line = Ok None)
           (filter unparsable fp)
    /\ Forall (fun raw_line => parse_line raw_line
                               = Ok (Some (record_of raw_line)))
              (filter (fun l => negb (unparsable l)) fp)
    /\ parse_rows (filter (fun l => negb (unparsable l)) fp) = parse_rows fp
    /\ exists rows : list row,
         parse_rows fp = Ok rows
         /\ len rows = len fp - len (filter unparsable fp)
         /\ exists st : driver,
              process_txt fp = Ok st
              /\ rows_written (disk st) = rows
              /\ len (rows_written (disk st))
                 = len fp - len (filter unparsable fp).
Proof.
  intros fp. split; [|split; [|split]].
  - apply Forall_forall. intros raw_line Hin. apply filter_In in Hin.
    destruct Hin as [_ Hun]. rewrite parse_line_value.
    unfold unparsable in Hun. rewrite Hun. reflexivity.
  - apply Forall_forall. intros raw_line Hin. apply filter_In in Hin.
    destruct Hin as [_ Hun]. rewrite parse_line_value.
    unfold unparsable in Hun. apply negb_true_iff in Hun. rewrite Hun.
    reflexivity.
  - rewrite !parse_rows_value, parse_rows_filter. reflexivity.
  - exists (flat_map yield_of fp).
    split; [apply parse_rows_value|]. split; [apply yielded_count|].
    exists (drive CHUNK_LIMIT (flat_map yield_of fp)).
    split; [apply process_txt_value|].
    destruct (drive_facts CHUNK_LIMIT chunk_limit_positive
                (flat_map yield_of fp)) as [Hrows _].
    split; [exact Hrows|]. rewrite Hrows. apply yielded_count.
Qed.

(* ------------------------------------------------------------------ *)
(** ** The entry point *)

Lemma run_on_missing (e : env) (out : list message) (p : path) :
  is_file e p = false ->
  run_on e out p
  = {| stdout := out; stderr := [FileNotFound p];
       exit_status := 1; written := [] |}.
Proof. intros Hfile. unfold run_on. rewrite Hfile. reflexivity. Qed.

Lemma run_on_returned (e : env) (out : list message) (p : path)
      (st : driver) :
  is_file e p = true -> process_txt_in e p = Returned st ->
  run_on e out p
  = {| stdout := out ++ map progress_of (disk st); stderr := [];
       exit_status := 0; written := disk st |}.
Proof.
  intros Hfile Hret. unfold run_on. rewrite Hfile, Hret. reflexivity.
Qed.

Lemma run_on_raised (e : env) (out : list message) (p : path)
      (why : exception) (announced on_disk : list workbook) :
  is_file e p = true ->
  process_txt_in e p = Raised why announced on_disk ->
  run_on e out p = uncaught out why announced on_disk.
Proof.
  intros Hfile Hraised. unfold run_on. rewrite Hfile, Hraised. reflexivity.
Qed.

(** When no call of [write_chunk] raises, the loop under the environment
    is the loop. *)
Lemma loop_in_reliable (e : env) (rows : list row) :
  (forall name : string, chunk_io e name = ChunkOk) ->
  forall st : driver,
    loop_in e rows st = Returned (fold_left (loop_body CHUNK_LIMIT) rows st).
Proof.
  intros Hok. induction rows as [|r rows IH]; intros st; [reflexivity|].
  simpl. unfold loop_body_in, write_chunk_in, loop_body. cbv zeta.
  destruct (len (buffer (append_row st r)) =? CHUNK_LIMIT).
  - rewrite Hok. apply IH.
  - apply IH.
Qed.

Lemma write_remainder_in_reliable (e : env) (st : driver) :
  (forall name : string, chunk_io e name = ChunkOk) ->
  write_remainder_in e st = Returned (write_remainder st).
Proof.
  intros Hok. unfold write_remainder_in, write_remainder, write_chunk_in.
  destruct (buffer st); [reflexivity|]. rewrite Hok. reflexivity.
Qed.

Lemma process_txt_in_reliable (e : env) (p : path) :
  read_raises e p = false ->
  (forall name : string, chunk_io e name = ChunkOk) ->
  process_txt_in e p
  = Returned (drive CHUNK_LIMIT (flat_map yield_of (read_lines e p))).
Proof.
  intros Hread Hok. unfold process_txt_in.
  rewrite parse_rows_value, (loop_in_reliable e _ Hok), Hread.
  apply write_remainder_in_reliable. exact Hok.
Qed.

(** C9. Without a path argument (whenever [sys.argv] does not have
    exactly two entries) the names matching [*.txt] in the working
    directory decide: exactly one, and the run goes on with that entry
    after printing its name first; none or several, and the usage text is
    printed and the status is 1.  With one argument the run goes on with
    that path.  From there, a path that is not an existing file ends the
    run with status 1, the message that the file was not found and
    nothing written.  For an existing file the status is 0 when
    [process_txt] returns, with one progress line per workbook after what
    was printed before, and 1 when it raises; it returns whenever neither
    reading the file nor [write_chunk] raises. *)
Theorem entry_point_exit_status :
  forall e : env,
    (len (argv e) <> 2 ->
     (forall name : string,
         cwd_txt e = [name] ->
         main e = run_on e [Text (chosen_message name)] (CwdEntry name)
         /\ exists rest : list message,
              stdout (main e) = Text (chosen_message name) :: rest)
     /\ (len (cwd_txt e) <> 1 ->
         stdout (main e) = map Text usage /\ exit_status (main e) = 1
         /\ written (main e) = []))
    /\ (forall script arg : string,
           argv e = [script; arg] -> main e = run_on e [] (ArgPath arg))
    /\ (forall (out : list message) (p : path),
           is_file e p = false ->
           exit_status (run_on e out p) = 1
           /\ written (run_on e out p) = []
           /\ stdout (run_on e out p) = out
           /\ stderr (run_on e out p) = [FileNotFound p])
    /\ (forall (out : list message) (p : path) (st : driver),
           is_file e p = true ->
           process_txt_in e p = Returned st ->
           exit_status (run_on e out p) = 0
           /\ written (run_on e out p) = disk st
           /\ stdout (run_on e out p) = (out ++ map progress_of (disk st))%list)
    /\ (forall (out : list message) (p : path) (why : exception)
               (announced on_disk : list workbook),
           is_file e p = true ->
           process_txt_in e p = Raised why announced on_disk ->
           exit_status (run_on e out p) = 1)
    /\ (forall p : path,
           read_raises e p = false ->
           (forall name : string, chunk_io e name = ChunkOk) ->
           process_txt_in e p
           = Returned (drive CHUNK_LIMIT
                             (flat_map yield_of (read_lines e p)))).
Proof.
  intros e. split; [|split; [|split; [|split; [|split]]]].
  - intros Hargs. apply Z.eqb_neq in Hargs. unfold main. rewrite Hargs.
    split.
    + intros name Hcwd. rewrite Hcwd. cbv zeta.
      change (len [name] =? 1) with true. cbv iota.
      change (getitem [name] 0) with (Ok name). cbv iota.
      split; [reflexivity|].
      unfold run_on. destruct (is_file e (CwdEntry name)).
      * cbn [negb]. destruct (process_txt_in e (CwdEntry name)).
        -- eexists. reflexivity.
        -- eexists. reflexivity.
      * eexists. reflexivity.
    + intros Hcwd. apply Z.eqb_neq in Hcwd. cbv zeta. rewrite Hcwd.
      repeat split.
  - intros script arg Hargv. unfold main. rewrite Hargv. reflexivity.
  - intros out p Hfile. rewrite (run_on_missing e out p Hfile).
    repeat split.
  - intros out p st Hfile Hret. rewrite (run_on_returned e out p st Hfile Hret).
    repeat split.
  - intros out p why announced on_disk Hfile Hraised.
    rewrite (run_on_raised e out p _ _ _ Hfile Hraised). reflexivity.
  - intros p. apply process_txt_in_reliable.
Qed.

Lemma entry_point_exit_status_witness :
  exists rest : list message,
    stdout
      (main {| argv := ["txttoexel.py"]; cwd_txt := ["input.txt"];
               is_file := fun _ => true;
               read_lines := fun _ => ["555:1:Ann:Lee:female:Rome"];
               read_raises := fun _ => false;
               chunk_io := fun _ => ChunkOk |})
    = Text "No path arg given -> using 'input.txt' in current directory."
      :: rest.
Proof.
  refine (proj2 (proj1 (proj1
    (entry_point_exit_status
       {| argv := ["txttoexel.py"]; cwd_txt := ["input.txt"];
          is_file := fun _ => true;
          read_lines := fun _ => ["555:1:Ann:Lee:female:Rome"];
          read_raises := fun _ => false;
          chunk_io := fun _ => ChunkOk |}) _)
    "input.txt" _)).
  - discriminate.
  - reflexivity.
Defined.

(* ------------------------------------------------------------------ *)
(** ** Further properties of the normalizer *)

Lemma rstrip_by_idempotent (drop : ascii -> bool) (s : string) :
  PyStr.rstrip_by drop (PyStr.rstrip_by drop s) = PyStr.rstrip_by drop s.
Proof.
  induction s as [|c r IH]; [reflexivity|].
  simpl. destruct (PyStr.rstrip_by drop r) as [|c' r'] eqn:Hr.
  - destruct (drop c) eqn:Hc; [reflexivity|]. simpl. rewrite Hc. reflexivity.
  - change (PyStr.rstrip_by drop (String c (String c' r')) = String c (String c' r')).
    simpl PyStr.rstrip_by at 1.
    change (match PyStr.rstrip_by drop (String c' r') with
            | EmptyString => if drop c then EmptyString else String c EmptyString
            | String a0 s0 => String c (String a0 s0)
            end = String c (String c' r')).
    rewrite IH. reflexivity.
Qed.

Lemma rstrip_by_last_dropped (drop : ascii -> bool) (s : string) (c : ascii) :
  drop c = true ->
  PyStr.rstrip_by drop (s ++ String c EmptyString) = PyStr.rstrip_by drop s.
Proof.
  intros Hc. induction s as [|a r IH].
  - simpl. rewrite Hc. reflexivity.
  - simpl. rewrite IH. reflexivity.
Qed.

Lemma rstrip_by_last_kept (drop : ascii -> bool) (s : string) (c : ascii) :
  drop c = false ->
  PyStr.rstrip_by drop (s ++ String c EmptyString)
  = (s ++ String c EmptyString)%string.
Proof.
  intros Hc. induction s as [|a r IH].
  - simpl. rewrite Hc. reflexivity.
  - simpl. rewrite IH. destruct (r ++ String c EmptyString)%string eqn:Happ.
    + destruct r; discriminate Happ.
    + reflexivity.
Qed.

Lemma string_app_cons (s : string) (c d : ascii) :
  (s ++ String c (String d EmptyString)
   = (s ++ String c EmptyString) ++ String d EmptyString)%string.
Proof. induction s as [|a r IH]; simpl; [reflexivity | rewrite IH; reflexivity]. Qed.

(** X5. Of a line terminator only the newline is removed before the line
    is parsed.  A line yields the same with or without a final newline.
    A carriage return before the newline stays: a line that ends in CR LF
    is read as the line followed by a carriage return, which is a
    whitespace run of its own; so "1 2:3:4:5" yields a record when it
    ends in CR LF and nothing when it ends in LF. *)
Theorem only_the_newline_is_stripped :
  (forall raw_line : string,
      parse_line (text_line raw_line) = parse_line raw_line)
  /\ (forall raw_line : string,
         stripped_line (raw_line ++ String CR (String LF EmptyString))
         = (raw_line ++ String CR EmptyString)%string
         /\ parse_line (raw_line ++ String CR (String LF EmptyString))
            = parse_line (raw_line ++ String CR EmptyString))
  /\ parse_line ("1 2:3:4:5" ++ String CR (String LF EmptyString))
     = Ok (Some ("1", "3", "4", EmptyString))
  /\ parse_line ("1 2:3:4:5" ++ String LF EmptyString) = Ok None.
Proof.
  assert (Hlf : forall s : string, stripped_line (text_line s) = stripped_line s).
  { intros s. unfold stripped_line, text_line, PyStr.rstrip_char.
    apply rstrip_by_last_dropped. apply Ascii.eqb_refl. }
  assert (Hcr : forall s : string,
             stripped_line (s ++ String CR EmptyString)
             = (s ++ String CR EmptyString)%string).
  { intros s. unfold stripped_line, PyStr.rstrip_char.
    apply rstrip_by_last_kept. reflexivity. }
  split; [|split; [|split]].
  - intros raw_line. unfold parse_line.
    fold (stripped_line (text_line raw_line)). fold (stripped_line raw_line).
    rewrite Hlf. reflexivity.
  - intros raw_line.
    assert (Hcrlf : stripped_line (raw_line ++ String CR (String LF EmptyString))
                    = (raw_line ++ String CR EmptyString)%string).
    { rewrite string_app_cons.
      change ((raw_line ++ String CR EmptyString) ++ String LF EmptyString)%string
        with (text_line (raw_line ++ String CR EmptyString)).
      rewrite Hlf. apply Hcr. }
    split; [exact Hcrlf|]. unfold parse_line.
    fold (stripped_line (raw_line ++ String CR (String LF EmptyString))).
    fold (stripped_line (raw_line ++ String CR EmptyString)).
    rewrite Hcrlf, Hcr. reflexivity.
  - vm_compute. reflexivity.
  - vm_compute. reflexivity.
Qed.

Lemma lstrip_no_leading_space (s : string) :
  no_leading_space (PyStr.lstrip s).
Proof.
  induction s as [|c r IH]; [exact I|].
  simpl. destruct (PyStr.isspace c) eqn:Hc; [exact IH | exact Hc].
Qed.

Lemma lstrip_fixed (s : string) :
  no_leading_space s -> PyStr.lstrip s = s.
Proof.
  destruct s as [|c r]; [reflexivity|]. simpl. intros Hc. rewrite Hc.
  reflexivity.
Qed.

Lemma rstrip_no_leading_space (s : string) :
  no_leading_space s -> no_leading_space (PyStr.rstrip s).
Proof.
  destruct s as [|c r]; [intros _; exact I|]. simpl. intros Hc.
  unfold PyStr.rstrip. simpl.
  destruct (PyStr.rstrip_by PyStr.isspace r); [rewrite Hc|]; exact Hc.
Qed.

Lemma strip_trimmed (s : string) : trimmed (PyStr.strip s).
Proof.
  unfold trimmed, PyStr.strip.
  rewrite (lstrip_fixed (PyStr.rstrip (PyStr.lstrip s)))
    by (apply rstrip_no_leading_space, lstrip_no_leading_space).
  apply rstrip_by_idempotent.
Qed.

Lemma trimmed_no_leading_space (s : string) :
  trimmed s -> no_leading_space s.
Proof.
  unfold trimmed, PyStr.strip. intros <-.
  apply rstrip_no_leading_space, lstrip_no_leading_space.
Qed.

Lemma trimmed_rstrip (s : string) : trimmed s -> PyStr.rstrip s = s.
Proof.
  unfold trimmed, PyStr.strip. intros H. rewrite <- H at 1.
  unfold PyStr.rstrip. rewrite rstrip_by_idempotent. exact H.
Qed.

Lemma rstrip_app_fixed (x b : string) :
  PyStr.rstrip b = b -> b <> EmptyString ->
  PyStr.rstrip (x ++ b) = (x ++ b)%string.
Proof.
  intros Hb Hne. induction x as [|c x IH]; [exact Hb|].
  unfold PyStr.rstrip in *. simpl. rewrite IH.
  destruct (x ++ b)%string as [|c' r'] eqn:Happ; [|reflexivity].
  exfalso. destruct x; simpl in Happ; [contradiction | discriminate].
Qed.

Lemma string_app_assoc (a b c : string) :
  (a ++ (b ++ c) = (a ++ b) ++ c)%string.
Proof. induction a as [|x a IH]; simpl; [reflexivity | rewrite IH; reflexivity]. Qed.

(** Two trimmed non-empty strings around any text make a trimmed string. *)
Lemma trimmed_between (a middle b : string) :
  trimmed a -> a <> EmptyString -> trimmed b -> b <> EmptyString ->
  trimmed (a ++ middle ++ b).
Proof.
  intros Ha Hane Hb Hbne. unfold trimmed, PyStr.strip.
  assert (Hlead : no_leading_space (a ++ middle ++ b)).
  { pose proof (trimmed_no_leading_space a Ha) as Hl.
    destruct a; [contradiction | exact Hl]. }
  rewrite (lstrip_fixed _ Hlead).
  rewrite string_app_assoc.
  apply rstrip_app_fixed; [apply trimmed_rstrip; exact Hb | exact Hbne].
Qed.

Lemma comma_segments_clean (candidate x : string) :
  In x (comma_segments candidate) -> trimmed x /\ x <> EmptyString.
Proof.
  unfold comma_segments. intros Hin. apply in_map_iff in Hin.
  destruct Hin as [seg [<- Hseg]]. apply filter_In in Hseg.
  destruct Hseg as [_ Htruthy]. split; [apply strip_trimmed|].
  apply truthy_true_iff. exact Htruthy.
Qed.

Lemma location_raw_trimmed (parts : list string) :
  trimmed (location_raw_of parts).
Proof.
  unfold location_raw_of.
  destruct (scan_location_cases (slice_from parts 5))
    as [[field [_ [_ Hs]]] | [_ Hs]]; rewrite Hs.
  - apply strip_trimmed.
  - reflexivity.
Qed.

Lemma last_In {A : Type} (l : list A) (d : A) :
  l <> [] -> In (List.last l d) l.
Proof.
  intros Hne. destruct (exists_last Hne) as [l' [a ->]].
  rewrite last_last. apply in_or_app. right. left. reflexivity.
Qed.

Lemma normalized_city_trimmed (candidate : string) :
  trimmed candidate -> trimmed (normalized_city candidate).
Proof.
  intros Hc. unfold normalized_city.
  destruct (PyStr.contains COMMA candidate); [|exact Hc].
  destruct (comma_segments candidate) as [|s rest] eqn:Hsegs; [reflexivity|].
  assert (Hfirst : In s (comma_segments candidate))
    by (rewrite Hsegs; left; reflexivity).
  assert (Hlast : In (List.last (s :: rest) s) (comma_segments candidate))
    by (rewrite Hsegs; apply last_In; discriminate).
  destruct (comma_segments_clean _ _ Hfirst) as [Hs Hsne].
  destruct (comma_segments_clean _ _ Hlast) as [Hl Hlne].
  apply trimmed_between; assumption.
Qed.

(** X1. The four fields of every record the normalizer yields are
    trimmed: none starts or ends with whitespace, the city included,
    whether it is the candidate itself or built as "Country: City". *)
Theorem yielded_fields_are_trimmed :
  forall raw_line phone first last city : string,
    parse_line raw_line = Ok (Some (phone, first, last, city)) ->
    trimmed phone /\ trimmed first /\ trimmed last /\ trimmed city.
Proof.
  intros raw_line phone first last city Hyield.
  destruct (parse_line_yields _ _ _ _ _ Hyield) as [_ [-> [-> [-> ->]]]].
  repeat split; try apply strip_trimmed.
  apply normalized_city_trimmed, location_raw_trimmed.
Qed.

Lemma yielded_fields_are_trimmed_witness :
  trimmed "555" /\ trimmed "Ann Mae" /\ trimmed "Lee"
  /\ trimmed "New Zealand: Port Chalmers".
Proof.
  apply (yielded_fields_are_trimmed
           " 555 :1:	Ann Mae :Lee  : female :  Port Chalmers , Otago,  New Zealand ").
  reflexivity.
Defined.


Lemma skip_tokens_lower_case :
  Forall (fun token => PyStr.lower token = token /\ token <> EmptyString)
         skip_tokens.
Proof. unfold skip_tokens. repeat constructor; discriminate. Qed.

(** X4. A field gets the known-token verdict, and is passed over,
    exactly when its trimmed text is one of the nine skip tokens up to
    letter case. *)
Theorem known_token_iff_skip_token_any_case :
  forall field : string,
    examine field = SkipKnownToken <->
    exists token : string,
      In token skip_tokens /\
      same_ignoring_case (PyStr.strip field) token.
Proof.
  intros field. unfold same_ignoring_case.
  pose proof skip_tokens_lower_case as Hlow. rewrite Forall_forall in Hlow.
  rewrite (proj1 (proj2 (examine_order field))). split.
  - intros [_ Hknown]. unfold known_token in Hknown.
    exists (PyStr.lower (PyStr.strip field)). split; [exact Hknown|].
    symmetry. apply (Hlow _ Hknown).
  - intros [token [Hin Hsame]]. destruct (Hlow token Hin) as [Hfix Hne].
    rewrite Hfix in Hsame. split.
    + unfold blank. intros Hb. rewrite Hb in Hsame. simpl in Hsame.
      apply Hne. symmetry. exact Hsame.
    + unfold known_token. rewrite Hsame. exact Hin.
Qed.

Lemma all_space_strip (s : string) :
  PyStr.all_chars PyStr.isspace s = true -> PyStr.strip s = EmptyString.
Proof.
  intros Hall. unfold PyStr.strip.
  replace (PyStr.lstrip s) with EmptyString; [reflexivity|].
  induction s as [|c r IH]; [reflexivity|].
  simpl in *. apply andb_true_iff in Hall. destruct Hall as [Hc Hr].
  rewrite Hc. apply IH. exact Hr.
Qed.

Lemma split_comma_or_space (s : string) :
  PyStr.all_chars comma_or_space s = true ->
  Forall (fun piece => PyStr.all_chars PyStr.isspace piece = true)
         (PyStr.split COMMA s).
Proof.
  induction s as [|c r IH]; intros Hall.
  - repeat constructor.
  - simpl in Hall. apply andb_true_iff in Hall. destruct Hall as [Hc Hr].
    specialize (IH Hr). simpl.
    destruct (Ascii.eqb c COMMA) eqn:Hcomma.
    + constructor; [reflexivity | exact IH].
    + unfold comma_or_space in Hc. rewrite Hcomma in Hc. simpl in Hc.
      destruct (PyStr.split COMMA r) as [|piece pieces].
      * repeat constructor. simpl. rewrite Hc. reflexivity.
      * inversion IH as [|? ? Hpiece Hpieces]; subst.
        constructor; [|exact Hpieces]. simpl. rewrite Hc. exact Hpiece.
Qed.

Lemma comma_segments_blank (candidate : string) :
  PyStr.all_chars comma_or_space candidate = true ->
  comma_segments candidate = [].
Proof.
  intros Hall. unfold comma_segments.
  pose proof (split_comma_or_space candidate Hall) as Hpieces.
  induction Hpieces as [|piece pieces Hpiece _ IH]; [reflexivity|].
  simpl. rewrite (all_space_strip piece Hpiece). simpl. exact IH.
Qed.

(** X9. When the location candidate has a comma but nothing besides
    commas and whitespace, the record is still yielded and its city is
    empty; the fields after the candidate are not looked at. *)
Theorem blank_segments_give_empty_city :
  forall raw_line phone first last city : string,
    parse_line raw_line = Ok (Some (phone, first, last, city)) ->
    PyStr.contains COMMA (location_raw_of (field_vector raw_line)) = true ->
    PyStr.all_chars comma_or_space (location_raw_of (field_vector raw_line))
    = true ->
    city = EmptyString.
Proof.
  intros raw_line phone first last city Hyield Hcomma Hall.
  destruct (parse_line_yields _ _ _ _ _ Hyield) as [_ [_ [_ [_ ->]]]].
  unfold normalized_city. rewrite Hcomma, (comma_segments_blank _ Hall).
  reflexivity.
Qed.

Lemma blank_segments_give_empty_city_witness :
  EmptyString = EmptyString :> string.
Proof.
  apply (blank_segments_give_empty_city
           "555:1:Ann:Lee:female: , ,:Rome, Italy"
           "555" "Ann" "Lee" EmptyString).
  - reflexivity.
  - reflexivity.
  - reflexivity.
Defined.


Lemma qualifies_strip (field : string) :
  qualifies (PyStr.strip field) = qualifies field.
Proof.
  pose proof (strip_trimmed field) as Hfix. unfold trimmed in Hfix.
  rewrite !qualifies_by_tests, Hfix. reflexivity.
Qed.

(** X10. The location candidate is either empty or passes the four
    exclusions itself: it is never blank, never a skip token in any
    letter case, never holds a slash and is never made of digits and
    hyphens only. *)
Theorem candidate_passes_or_is_empty :
  forall parts : list string,
    location_raw_of parts = EmptyString \/ passes (location_raw_of parts).
Proof.
  intros parts. unfold location_raw_of.
  destruct (scan_location_cases (slice_from parts 5))
    as [[field [_ [Hq Hs]]] | [_ Hs]]; rewrite Hs.
  - right. apply qualifies_iff_passes. rewrite qualifies_strip. exact Hq.
  - left. reflexivity.
Qed.

(** The repair adds one delimiter per whitespace run, up to [count]. *)
Lemma sub_ws_go_count (sep : ascii) (s : string) :
  PyStr.isspace sep = false ->
  forall (count : nat) (in_run : bool),
    count_char sep (PyStr.sub_ws_go sep count in_run s)
    = (count_char sep s + Nat.min count (ws_runs_go in_run s))%nat.
Proof.
  intros Hsep.
  induction s as [|c r IH]; intros count in_run.
  - simpl. rewrite Nat.min_0_r. reflexivity.
  - simpl. destruct (PyStr.isspace c) eqn:Hc.
    + assert (Hne : Ascii.eqb c sep = false).
      { destruct (Ascii.eqb c sep) eqn:Heq; [|reflexivity].
        apply Ascii.eqb_eq in Heq. subst c. congruence. }
      rewrite Hne. destruct in_run.
      * rewrite IH. reflexivity.
      * destruct count as [|count'].
        -- simpl. rewrite Hne, IH. simpl. reflexivity.
        -- simpl. rewrite Ascii.eqb_refl, IH. simpl. lia.
    + simpl. rewrite IH. lia.
Qed.

Lemma fixed_line_fields (line : string) :
  List.length (PyStr.split COL_SEP (fixed_line line))
  = (List.length (naive_parts line) + Nat.min 2 (ws_runs line))%nat.
Proof.
  unfold fixed_line, naive_parts, PyStr.sub_ws, ws_runs.
  rewrite !split_count, (sub_ws_go_count COL_SEP line eq_refl). reflexivity.
Qed.

(** X2. Which lines are dropped, by counting: a line yields nothing
    exactly when its delimiters plus its whitespace runs, of which at
    most two count, are at most four.  The counts are taken after the
    trailing newlines are removed. *)
Theorem dropped_iff_delimiters_and_runs_at_most_four :
  forall raw_line : string,
    parse_line raw_line = Ok None <->
    (count_char COL_SEP (stripped_line raw_line)
     + Nat.min 2 (ws_runs (stripped_line raw_line)) <= 4)%nat.
Proof.
  intros raw_line. rewrite parse_line_value.
  unfold field_vector, repaired_parts. cbv zeta.
  fold (too_few (naive_parts (stripped_line raw_line))).
  pose proof (fixed_line_fields (stripped_line raw_line)) as Hfixed.
  pose proof (split_count COL_SEP (stripped_line raw_line)) as Hnaive.
  fold (naive_parts (stripped_line raw_line)) in Hnaive.
  unfold too_few at 2.
  destruct (len (naive_parts (stripped_line raw_line)) <=? max_col) eqn:Hfew.
  - apply Z.leb_le in Hfew. rewrite max_col_value in Hfew.
    unfold too_few.
    destruct (len (PyStr.split COL_SEP (fixed_line (stripped_line raw_line)))
              <=? max_col) eqn:Hfew2.
    + apply Z.leb_le in Hfew2. rewrite max_col_value in Hfew2.
      unfold len in *. split; [intros _; lia | reflexivity].
    + apply Z.leb_gt in Hfew2. rewrite max_col_value in Hfew2.
      unfold len in *. split; [discriminate | lia].
  - apply Z.leb_gt in Hfew. rewrite max_col_value in Hfew.
    unfold too_few.
    destruct (len (naive_parts (stripped_line raw_line)) <=? max_col) eqn:Hfew3.
    + apply Z.leb_le in Hfew3. rewrite max_col_value in Hfew3. lia.
    + unfold len in *. split; [discriminate | lia].
Qed.


Lemma sub_ws_go_word (sep : ascii) (count : nat) (a s : string) :
  PyStr.all_chars nonspace a = true ->
  PyStr.sub_ws_go sep count false (a ++ s)
  = (a ++ PyStr.sub_ws_go sep count false s)%string.
Proof.
  induction a as [|c a IH]; intros Hall; [reflexivity|].
  simpl in Hall. apply andb_true_iff in Hall. destruct Hall as [Hc Ha].
  unfold nonspace in Hc. apply negb_true_iff in Hc.
  simpl. rewrite Hc, (IH Ha). reflexivity.
Qed.

Lemma sub_ws_go_word_after_run (sep : ascii) (count : nat) (a s : string) :
  PyStr.all_chars nonspace a = true -> a <> EmptyString ->
  PyStr.sub_ws_go sep count true (a ++ s)
  = (a ++ PyStr.sub_ws_go sep count false s)%string.
Proof.
  destruct a as [|c a]; intros Hall Hne; [contradiction|].
  simpl in Hall. apply andb_true_iff in Hall. destruct Hall as [Hc Ha].
  unfold nonspace in Hc. apply negb_true_iff in Hc.
  simpl. rewrite Hc, (sub_ws_go_word sep count a s Ha). reflexivity.
Qed.

Lemma sub_ws_go_rest_of_run (sep : ascii) (count : nat) (w s : string) :
  PyStr.all_chars PyStr.isspace w = true ->
  PyStr.sub_ws_go sep count true (w ++ s) = PyStr.sub_ws_go sep count true s.
Proof.
  induction w as [|c w IH]; intros Hall; [reflexivity|].
  simpl in Hall. apply andb_true_iff in Hall. destruct Hall as [Hc Hw].
  simpl. rewrite Hc. apply IH. exact Hw.
Qed.

Lemma sub_ws_go_run (sep : ascii) (count : nat) (w s : string) :
  PyStr.all_chars PyStr.isspace w = true -> w <> EmptyString ->
  PyStr.sub_ws_go sep (S count) false (w ++ s)
  = String sep (PyStr.sub_ws_go sep count true s).
Proof.
  destruct w as [|c w]; intros Hall Hne; [contradiction|].
  simpl in Hall. apply andb_true_iff in Hall. destruct Hall as [Hc Hw].
  simpl. rewrite Hc, (sub_ws_go_rest_of_run sep count w s Hw). reflexivity.
Qed.

Lemma sub_ws_go_spent (sep : ascii) (s : string) :
  PyStr.sub_ws_go sep 0 false s = s.
Proof.
  induction s as [|c r IH]; [reflexivity|].
  simpl. rewrite IH. destruct (PyStr.isspace c); reflexivity.
Qed.

Lemma sub_ws_go_spent_after_run (sep : ascii) (s : string) :
  no_leading_space s -> PyStr.sub_ws_go sep 0 true s = s.
Proof.
  destruct s as [|c r]; [reflexivity|]. simpl. intros Hc.
  rewrite Hc, sub_ws_go_spent. reflexivity.
Qed.

(** X3. The repair turns the first two whitespace runs of a line into
    one delimiter each, wherever they stand, and leaves the rest of the
    line as it is: [a w1 b w2 rest], with [a] and [b] free of whitespace,
    [w1] and [w2] runs of whitespace and [rest] not starting with
    whitespace, becomes [a:b:rest].  When the naive split is too short,
    the fields are those of [a:b:rest]; so a line that lost its first two
    delimiters is read as if it had them. *)
Theorem repair_replaces_first_two_runs :
  forall a w1 b w2 rest : string,
    PyStr.all_chars nonspace a = true ->
    PyStr.all_chars PyStr.isspace w1 = true -> w1 <> EmptyString ->
    PyStr.all_chars nonspace b = true -> b <> EmptyString ->
    PyStr.all_chars PyStr.isspace w2 = true -> w2 <> EmptyString ->
    no_leading_space rest ->
    fixed_line (a ++ w1 ++ b ++ w2 ++ rest)
    = (a ++ String COL_SEP (b ++ String COL_SEP rest))%string
    /\ repaired_parts (a ++ w1 ++ b ++ w2 ++ rest)
       = if too_few (naive_parts (a ++ w1 ++ b ++ w2 ++ rest))
         then naive_parts (a ++ String COL_SEP (b ++ String COL_SEP rest))
         else naive_parts (a ++ w1 ++ b ++ w2 ++ rest).
Proof.
  intros a w1 b w2 rest Ha Hw1 Hw1ne Hb Hbne Hw2 Hw2ne Hrest.
  assert (Hfixed : fixed_line (a ++ w1 ++ b ++ w2 ++ rest)
                   = (a ++ String COL_SEP (b ++ String COL_SEP rest))%string).
  { unfold fixed_line, PyStr.sub_ws.
    rewrite (sub_ws_go_word _ _ a _ Ha).
    rewrite (sub_ws_go_run _ _ w1 _ Hw1 Hw1ne).
    rewrite (sub_ws_go_word_after_run _ _ b _ Hb Hbne).
    rewrite (sub_ws_go_run _ _ w2 _ Hw2 Hw2ne).
    rewrite (sub_ws_go_spent_after_run _ rest Hrest). reflexivity. }
  split; [exact Hfixed|].
  unfold repaired_parts. cbv zeta.
  fold (too_few (naive_parts (a ++ w1 ++ b ++ w2 ++ rest))).
  rewrite Hfixed. reflexivity.
Qed.

Lemma repair_replaces_first_two_runs_witness :
  fixed_line "15551234 77  Ann:Lee:female:Rome"
  = "15551234:77:Ann:Lee:female:Rome"
  /\ repaired_parts "15551234 77  Ann:Lee:female:Rome"
     = ["15551234"; "77"; "Ann"; "Lee"; "female"; "Rome"].
Proof.
  apply (repair_replaces_first_two_runs
           "15551234" " " "77" "  " "Ann:Lee:female:Rome");
    try reflexivity; try discriminate.
Defined.


(* ------------------------------------------------------------------ *)
(** ** Further properties of the writer and the driver *)

Lemma to_int_not_nil (n : Z) :
  Z.to_int n <> Decimal.Pos Decimal.Nil /\
  Z.to_int n <> Decimal.Neg Decimal.Nil.
Proof.
  pose proof (DecimalZ.to_of (Z.to_int n)) as Hnorm.
  rewrite DecimalZ.of_to in Hnorm.
  split; intros Heq; rewrite Heq in Hnorm; discriminate Hnorm.
Qed.

Lemma str_of_int_injective (n m : Z) :
  str_of_int n = str_of_int m -> n = m.
Proof.
  unfold str_of_int. intros Heq.
  destruct (to_int_not_nil n) as [Hn1 Hn2].
  destruct (to_int_not_nil m) as [Hm1 Hm2].
  pose proof (NilZero.isi (Z.to_int n) Hn1 Hn2) as Hn.
  pose proof (NilZero.isi (Z.to_int m) Hm1 Hm2) as Hm.
  rewrite Heq, Hm in Hn. injection Hn as Hn.
  apply DecimalZ.to_int_inj. symmetry. exact Hn.
Qed.

Lemma string_length_app (a b : string) :
  String.length (a ++ b) = (String.length a + String.length b)%nat.
Proof. induction a as [|c a IH]; simpl; [reflexivity | rewrite IH; reflexivity]. Qed.

Lemma string_app_inv_tail (a b s : string) :
  (a ++ s = b ++ s)%string -> a = b.
Proof.
  revert b. induction a as [|c a IH]; intros b Heq.
  - destruct b as [|d b]; [reflexivity|].
    apply (f_equal String.length) in Heq. simpl in Heq.
    rewrite string_length_app in Heq. lia.
  - destruct b as [|d b].
    + apply (f_equal String.length) in Heq. simpl in Heq.
      rewrite string_length_app in Heq. lia.
    + simpl in Heq. injection Heq as -> Heq. f_equal. apply IH. exact Heq.
Qed.

Lemma out_name_injective : Injective out_name.
Proof.
  intros n m Heq. unfold out_name, OUTPUT_BASENAME in Heq.
  simpl in Heq. injection Heq as Heq.
  apply string_app_inv_tail in Heq. apply str_of_int_injective. exact Heq.
Qed.

Lemma write_chunk_well_named (rows : list row) (n : Z) (d : list workbook) :
  Forall well_named d -> Forall well_named (write_chunk rows n d).
Proof.
  intros Hd. unfold write_chunk. apply Forall_app. split; [exact Hd|].
  repeat constructor.
Qed.

Lemma loop_body_well_named (limit : Z) (st : driver) (r : row) :
  Forall well_named (disk st) ->
  Forall well_named (disk (loop_body limit st r)).
Proof.
  intros Hd. unfold loop_body. cbv zeta.
  destruct (len (buffer (append_row st r)) =? limit).
  - unfold flush. cbn [disk append_row]. apply write_chunk_well_named. exact Hd.
  - exact Hd.
Qed.

Lemma drive_well_named (limit : Z) (rows : list row) :
  Forall well_named (disk (drive limit rows)).
Proof.
  unfold drive.
  assert (Hfold : forall st, Forall well_named (disk st) ->
            Forall well_named (disk (fold_left (loop_body limit) rows st))).
  { induction rows as [|r rows IH]; intros st Hst; [exact Hst|].
    simpl. apply IH. apply loop_body_well_named. exact Hst. }
  specialize (Hfold start (Forall_nil _)).
  unfold write_remainder.
  destruct (buffer (fold_left (loop_body limit) rows start)); [exact Hfold|].
  cbn [disk]. apply write_chunk_well_named. exact Hfold.
Qed.

Lemma parts_upto_NoDup (n : nat) : NoDup (parts_upto n).
Proof.
  unfold parts_upto. apply Injective_map_NoDup; [|apply seq_NoDup].
  intros a b Hab. apply Nat2Z.inj. exact Hab.
Qed.

(** X6. Every workbook of a run is named [output_<part>.xlsx] after the
    part number it was written under and carries the header row Phone,
    FirstName, LastName, City; the names of one run are pairwise
    distinct, so no workbook of the run is written over. *)
Theorem workbook_names_are_distinct :
  forall rows : list row,
    Forall well_named (disk (drive CHUNK_LIMIT rows))
    /\ NoDup (map wb_name (disk (drive CHUNK_LIMIT rows))).
Proof.
  intros rows.
  pose proof (drive_well_named CHUNK_LIMIT rows) as Hnamed.
  split; [exact Hnamed|].
  destruct (drive_facts CHUNK_LIMIT chunk_limit_positive rows)
    as [_ [_ [Hnum _]]].
  assert (Hnames : map wb_name (disk (drive CHUNK_LIMIT rows))
                   = map out_name (map wb_part (disk (drive CHUNK_LIMIT rows)))).
  { rewrite map_map. apply map_ext_in. intros w Hw.
    rewrite Forall_forall in Hnamed. apply (Hnamed w Hw). }
  rewrite Hnames, Hnum.
  apply Injective_map_NoDup; [apply out_name_injective | apply parts_upto_NoDup].
Qed.


Lemma only_last_smaller_tail (limit : Z) (w : workbook) (d : list workbook) :
  only_last_smaller limit (w :: d) ->
  0 < len (wb_rows w) <= limit
  /\ (d <> [] -> len (wb_rows w) = limit /\ only_last_smaller limit d).
Proof.
  intros [Hfull Hsizes]. split; [exact (Forall_inv Hsizes)|].
  intros Hne. destruct d as [|w' d]; [contradiction|].
  change (removelast (w :: w' :: d)) with (w :: removelast (w' :: d)) in Hfull.
  unfold all_full in Hfull. split; [exact (Forall_inv Hfull)|].
  split; [exact (Forall_inv_tail Hfull) | exact (Forall_inv_tail Hsizes)].
Qed.

(** Where the [k]-th row written stands: workbook [k / limit], row
    [k mod limit], both counted from 0. *)
Lemma row_position (limit : Z) (d : list workbook) :
  0 < limit -> only_last_smaller limit d ->
  forall k : Z,
    0 <= k < len (rows_written d) ->
    exists w : workbook,
      nth_error d (Z.to_nat (k / limit)) = Some w
      /\ nth_error (wb_rows w) (Z.to_nat (k mod limit))
         = nth_error (rows_written d) (Z.to_nat k).
Proof.
  intros Hpos. induction d as [|w d IH]; intros Hsizes k Hk.
  - change (len (rows_written [])) with 0 in Hk. lia.
  - destruct (only_last_smaller_tail limit w d Hsizes) as [Hw Htail].
    change (rows_written (w :: d)) with (wb_rows w ++ rows_written d)%list in *.
    rewrite len_app in Hk.
    destruct (Z_lt_dec k (len (wb_rows w))) as [Hlt | Hge].
    + exists w. rewrite Z.div_small, Z.mod_small by lia.
      split; [reflexivity|].
      rewrite nth_error_app1 by (unfold len in Hlt; lia). reflexivity.
    + assert (Hne : d <> []).
      { intros ->. change (len (rows_written [])) with 0 in Hk. lia. }
      destruct (Htail Hne) as [Hfull Hd].
      destruct (IH Hd (k - limit)) as [w' [Hw' Hrow]]; [lia|].
      exists w'.
      assert (Hdiv : k / limit = (k - limit) / limit + 1).
      { replace k with ((k - limit) + 1 * limit) at 1 by lia.
        apply Z.div_add. lia. }
      assert (Hmod : k mod limit = (k - limit) mod limit).
      { replace k with ((k - limit) + 1 * limit) at 1 by lia.
        apply Z.mod_add. lia. }
      assert (Hq : 0 <= (k - limit) / limit) by (apply Z.div_pos; lia).
      rewrite Hdiv, Hmod.
      replace (Z.to_nat ((k - limit) / limit + 1))
        with (S (Z.to_nat ((k - limit) / limit))) by lia.
      split; [exact Hw'|]. rewrite Hrow.
      rewrite nth_error_app2 by (unfold len in *; lia).
      f_equal. unfold len in *. lia.
Qed.

Lemma numbered_part (d : list workbook) (i : nat) (w : workbook) :
  numbered_from_one d -> nth_error d i = Some w ->
  wb_part w = Z.of_nat i + 1.
Proof.
  unfold numbered_from_one, parts_upto. intros Hnum Hw.
  pose proof (f_equal (fun l => nth_error l i) Hnum) as Hi. cbv beta in Hi.
  rewrite !nth_error_map, Hw, nth_error_seq in Hi.
  destruct (Nat.ltb i (List.length d)); simpl in Hi; [|discriminate Hi].
  injection Hi as ->. lia.
Qed.

(** X7. Rows go to the workbooks in the order they are yielded, a
    million to each: the row yielded at position [k] (from 0) is row
    [k mod 1000000] of the workbook written under part number
    [k / 1000000 + 1], whose file is [output_<that number>.xlsx]. *)
Theorem row_lands_in_its_part :
  forall (rows : list row) (k : Z) (r : row),
    0 <= k ->
    nth_error rows (Z.to_nat k) = Some r ->
    exists w : workbook,
      nth_error (disk (drive CHUNK_LIMIT rows)) (Z.to_nat (k / CHUNK_LIMIT))
      = Some w
      /\ wb_part w = k / CHUNK_LIMIT + 1
      /\ wb_name w = out_name (k / CHUNK_LIMIT + 1)
      /\ nth_error (wb_rows w) (Z.to_nat (k mod CHUNK_LIMIT)) = Some r.
Proof.
  intros rows k r Hk Hr.
  destruct (drive_facts CHUNK_LIMIT chunk_limit_positive rows)
    as [Hrows [Hsizes [Hnum _]]].
  assert (Hlt : k < len rows).
  { assert (Hsome : nth_error rows (Z.to_nat k) <> None) by congruence.
    apply nth_error_Some in Hsome. unfold len. lia. }
  destruct (row_position CHUNK_LIMIT _ chunk_limit_positive Hsizes k)
    as [w [Hw Hrow]]; [rewrite Hrows; lia|].
  exists w. split; [exact Hw|].
  pose proof (numbered_part _ _ _ Hnum Hw) as Hpart.
  assert (Hq : 0 <= k / CHUNK_LIMIT)
    by (apply Z.div_pos; [lia | apply chunk_limit_positive]).
  rewrite Z2Nat.id in Hpart by exact Hq.
  split; [exact Hpart|]. split.
  - pose proof (drive_well_named CHUNK_LIMIT rows) as Hnamed.
    rewrite Forall_forall in Hnamed.
    destruct (Hnamed w (nth_error_In _ _ Hw)) as [Hname _].
    rewrite Hname, Hpart. reflexivity.
  - rewrite Hrow, Hrows. exact Hr.
Qed.

Lemma row_lands_in_its_part_witness :
  exists w : workbook,
    nth_error (disk (drive CHUNK_LIMIT
                           [("1", "Ann", "Lee", "Rome");
                            ("2", "Bob", "Ray", "Oslo");
                            ("3", "Cy", "Poe", "Lima")]))
              (Z.to_nat (1 / CHUNK_LIMIT))
    = Some w
    /\ wb_part w = 1 / CHUNK_LIMIT + 1
    /\ wb_name w = out_name (1 / CHUNK_LIMIT + 1)
    /\ nth_error (wb_rows w) (Z.to_nat (1 mod CHUNK_LIMIT))
       = Some ("2", "Bob", "Ray", "Oslo").
Proof.
  apply (row_lands_in_its_part
           [("1", "Ann", "Lee", "Rome"); ("2", "Bob", "Ray", "Oslo");
            ("3", "Cy", "Poe", "Lima")] 1 ("2", "Bob", "Ray", "Oslo")).
  - lia.
  - reflexivity.
Defined.

Lemma nth_error_last {A : Type} (l : list A) (i : nat) (x d : A) :
  nth_error l i = Some x -> S i = List.length l -> List.last l d = x.
Proof.
  intros Hx Hi. assert (Hne : l <> []) by (destruct l; [discriminate | discriminate]).
  destruct (exists_last Hne) as [l' [a ->]]. rewrite last_last.
  rewrite length_app in Hi. simpl in Hi.
  rewrite nth_error_app2 in Hx by lia.
  replace (i - List.length l')%nat with 0%nat in Hx by lia.
  simpl in Hx. congruence.
Qed.

Lemma nth_error_removelast {A : Type} (l : list A) (i : nat) (x : A) :
  nth_error l i = Some x -> (S i < List.length l)%nat ->
  nth_error (removelast l) i = Some x.
Proof.
  intros Hx Hi. assert (Hne : l <> []) by (destruct l; simpl in Hi; [lia | discriminate]).
  destruct (exists_last Hne) as [l' [a ->]]. rewrite removelast_last.
  rewrite length_app in Hi. simpl in Hi.
  rewrite nth_error_app1 in Hx by lia. exact Hx.
Qed.

Lemma workbook_size (limit : Z) (rows : list row) (i : nat) (w : workbook) :
  0 < limit ->
  nth_error (disk (drive limit rows)) i = Some w ->
  len (wb_rows w) = Z.min limit (len rows - limit * Z.of_nat i).
Proof.
  intros Hpos Hw.
  destruct (drive_facts limit Hpos rows) as [Hrows [[Hfull Hsizes] [_ _]]].
  set (d := disk (drive limit rows)) in *.
  assert (Hi : (i < List.length d)%nat)
    by (apply nth_error_Some; congruence).
  assert (Hne : d <> []) by (destruct d; [simpl in Hi; lia | discriminate]).
  assert (Hsplit : d = (removelast d ++ [List.last d w])%list)
    by (apply app_removelast_last; exact Hne).
  assert (Hlast : 0 < len (wb_rows (List.last d w)) <= limit).
  { rewrite Forall_forall in Hsizes. apply Hsizes. apply last_In. exact Hne. }
  assert (Htotal : len rows
                   = limit * len (removelast d)
                     + len (wb_rows (List.last d w))).
  { rewrite <- Hrows. rewrite Hsplit at 1.
    rewrite rows_written_app, len_app, (all_full_rows limit _ Hfull).
    reflexivity. }
  assert (Hcount : len d = len (removelast d) + 1).
  { rewrite Hsplit at 1. rewrite len_app. reflexivity. }
  destruct (Nat.eq_dec (S i) (List.length d)) as [Heq | Hneq].
  - rewrite (nth_error_last d i w w Hw Heq) in *.
    unfold len in *. nia.
  - assert (Hin : nth_error (removelast d) i = Some w)
      by (apply nth_error_removelast; [exact Hw | lia]).
    unfold all_full in Hfull. rewrite Forall_forall in Hfull.
    rewrite (Hfull w (nth_error_In _ _ Hin)).
    unfold len in *. nia.
Qed.

(** X11. The sizes of the workbooks, all of them: on [Q] yielded rows the
    workbook at position [i] (from 0) holds [min(1000000, Q - 1000000 i)]
    rows. *)
Theorem workbook_sizes :
  forall (rows : list row) (i : nat) (w : workbook),
    nth_error (disk (drive CHUNK_LIMIT rows)) i = Some w ->
    len (wb_rows w)
    = Z.min CHUNK_LIMIT (len rows - CHUNK_LIMIT * Z.of_nat i).
Proof.
  intros rows i w Hw.
  apply (workbook_size CHUNK_LIMIT rows i w chunk_limit_positive Hw).
Qed.

Lemma workbook_sizes_witness :
  len [("1", "Ann", "Lee", "Rome"); ("2", "Bob", "Ray", "Oslo")]
  = Z.min CHUNK_LIMIT
          (len [("1", "Ann", "Lee", "Rome"); ("2", "Bob", "Ray", "Oslo")]
           - CHUNK_LIMIT * Z.of_nat 0).
Proof.
  apply (workbook_sizes
           [("1", "Ann", "Lee", "Rome"); ("2", "Bob", "Ray", "Oslo")] 0%nat
           {| wb_name := "output_1.xlsx"; wb_part := 1; wb_header := HEADER;
              wb_rows := [("1", "Ann", "Lee", "Rome");
                          ("2", "Bob", "Ray", "Oslo")] |}).
  reflexivity.
Defined.

(* ------------------------------------------------------------------ *)
(** ** Further properties of the entry point *)







(* ------------------------------------------------------------------ *)
(** ** Runs on concrete inputs *)

Example strip_run : PyStr.strip "  a b	 " = "a b".
Proof. reflexivity. Qed.

Example split_run : PyStr.split ":" "a::b:" = ["a"; ""; "b"; ""].
Proof. reflexivity. Qed.

Example sub_ws_run : PyStr.sub_ws ":" 2 " 1  2 3 4" = ":1:2 3 4".
Proof. reflexivity. Qed.

(** Two delimiters lost at the start of the line are put back. *)
Example repaired_line_run :
  parse_line (text_line "15551234 77 Ann:Lee:female:Springfield, USA")
  = Ok (Some ("15551234", "Ann", "Lee", "USA: Springfield")).
Proof. vm_compute. reflexivity. Qed.

(** A status that is not in the skip set is kept as the city. *)
Example unlisted_status_run :
  parse_line (text_line "555:1:Ann:Lee:female:Separated:Rome, Italy")
  = Ok (Some ("555", "Ann", "Lee", "Separated")).
Proof. vm_compute. reflexivity. Qed.

(** Five rows under a limit of two: three workbooks, the last one short. *)
Example small_drive_run :
  let r := ("555", "Ann", "Lee", "Rome") in
  map (fun w => (wb_name w, wb_rows w)) (disk (drive 2 [r; r; r; r; r]))
  = [("output_1.xlsx", [r; r]); ("output_2.xlsx", [r; r]);
     ("output_3.xlsx", [r])].
Proof. vm_compute. reflexivity. Qed.

(** A given path that is no file: status 1, nothing written. *)
Example missing_file_run :
  let e := {| argv := ["txttoexel.py"; "nowhere.txt"]; cwd_txt := [];
              is_file := fun _ => false; read_lines := fun _ => [];
              read_raises := fun _ => false;
              chunk_io := fun _ => ChunkOk |} in
  exit_status (main e) = 1
  /\ stderr (main e) = [FileNotFound (ArgPath "nowhere.txt")].
Proof. vm_compute. split; reflexivity. Qed.

(** One row, then the file cannot be decoded: status 1, the row is lost
    with the batch and nothing is written. *)
Example read_error_run :
  let e := {| argv := ["txttoexel.py"; "in.txt"]; cwd_txt := [];
              is_file := fun _ => true;
              read_lines := fun _ => ["555:1:Ann:Lee:female:Rome"];
              read_raises := fun _ => true;
              chunk_io := fun _ => ChunkOk |} in
  exit_status (main e) = 1 /\ written (main e) = []
  /\ stderr (main e) = [Traceback ReadError].
Proof. vm_compute. repeat split; reflexivity. Qed.

(** One row, read and written: one progress line after nothing. *)
Example one_row_run :
  let e := {| argv := ["txttoexel.py"; "in.txt"]; cwd_txt := [];
              is_file := fun _ => true;
              read_lines := fun _ => ["555:1:Ann:Lee:female:Rome"];
              read_raises := fun _ => false;
              chunk_io := fun _ => ChunkOk |} in
  exit_status (main e) = 0
  /\ stdout (main e) = [Wrote 1 "output_1.xlsx"].
Proof. vm_compute. split; reflexivity. Qed.
